(** * Variable-load traffic simulator: the load pattern controller

    A shallow embedding of [sample-apps/3-variable-load/app/main.py]:
    the module globals, the pattern function [calculate_target_workers],
    one iteration of the [manage_workers] loop and the two administrative
    handlers [update_config] and [set_pattern].

    Conventions.
    - Python [int] is [Z]; [%] on ints is [Z.modulo] (the sign follows the
      divisor in both), and a zero divisor raises [ZeroDivisionError].
    - Python [float] is IEEE 754 binary64, the type [float] below.  An
      operation returns its exact result rounded to the nearest binary64
      number, a tie going to the even significand ([round64]); past the
      largest finite number the result is an infinity, and Python raises
      [OverflowError] where it converts an int that is too large or takes
      [int] of an infinity.  The quotient of two ints is the float nearest
      to the exact quotient.  The sign of a zero is not kept: no result of
      this program depends on it.
    - [math.sin] is the sine of the platform's C library, which does not
      promise the last bit.  Its value on a finite argument is a parameter,
      [libm_sin], of which only the range [[-1, 1]] is assumed, and, where a
      statement compares two targets, the order of the two sines involved.
      The closed examples take [sin_ref] for it, a sine summed from the
      series; on the arguments of the examples it returns what CPython's
      [math.sin] returns with glibc.
    - [int(x)] on a float truncates toward zero.
    - A raised exception is a [Raise] result; the globals written before
      the exception stay written. *)

From stdpp Require Import gmap strings list.
From Stdlib Require Import ZArith QArith Qround Qabs Qpower Lqa Lia.
From Stdlib Require Qcanon.

#[local] Set Warnings "-register-all".
#[local] Open Scope Z_scope.

(** ** Python values *)

(** What [request.get_json()] can return, and what a module global such as
    [PATTERN_MODE] can hold after [/config] stored a body field in it.
    [JFloat] carries a finite float by its value. *)
Inductive json : Type :=
| JNull
| JBool (b : bool)
| JInt (n : Z)
| JFloat (q : Q)
| JStr (s : string)
| JArr (l : list json)
| JObj (m : gmap string json).


Inductive exn : Type :=
| ZeroDivisionError
| TypeError
| ValueError
| KeyError
| OverflowError.


Inductive result (A : Type) : Type :=
| Ok (a : A)
| Raise (e : exn).
Arguments Ok {A} a.
Arguments Raise {A} e.

(** Truth value of a Python object, as [x or {}] tests it. *)
Definition truthy (v : json) : bool :=
  match v with
  | JNull => false
  | JBool b => b
  | JInt n => negb (n =? 0)
  | JFloat q => negb (Qeq_bool q 0)
  | JStr s => negb (String.eqb s "")
  | JArr l => match l with [] => false | _ => true end
  | JObj m => negb (bool_decide (m = ∅))
  end.

(** [v == s] for a string literal [s]: only a string compares equal. *)
Definition py_eq_str (v : json) (s : string) : bool :=
  match v with
  | JStr s' => String.eqb s' s
  | _ => false
  end.

(** [key in data] for a string [key]. *)
Definition py_contains (key : string) (data : json) : result bool :=
  match data with
  | JObj m => Ok (bool_decide (is_Some (m !! key)))
  | JArr l => Ok (existsb (fun v => py_eq_str v key) l)
  | JStr s => Ok (match String.index 0 key s with Some _ => true | None => false end)
  | JNull | JBool _ | JInt _ | JFloat _ => Raise TypeError
  end.

(** [data[key]] for a string [key]. *)
Definition py_getitem (data : json) (key : string) : result json :=
  match data with
  | JObj m => match m !! key with Some v => Ok v | None => Raise KeyError end
  | _ => Raise TypeError
  end.

(** [int(x)] on a float: the integer part, toward zero. *)
Definition int_of_rat (q : Q) : Z := Z.quot (Qnum q) (Zpos (Qden q)).

Definition Qltb (x y : Q) : bool := negb (Qle_bool y x).

(** ** Floating point *)

(** Nearest integer, a tie going to the even neighbour: Python's [round],
    and the rounding of a binary64 significand. *)
Definition round_rat (q : Q) : Z :=
  let f := Qfloor q in
  match Qcompare (q - inject_Z f) (1 # 2) with
  | Lt => f
  | Gt => f + 1
  | Eq => if Z.even f then f else f + 1
  end.

(** A Python [float]: an IEEE 754 binary64 number.  A finite one is carried
    by its value; the sign of a zero is not kept. *)
Inductive float : Type :=
| Fin (q : Q)
| Inf (negative : bool)
| NaN.

(** The exponent [k] with [2^k <= x < 2^(k+1)], for a positive [x]. *)
Definition Qlog2 (x : Q) : Z :=
  let k := Z.log2 (Qnum x) - Z.log2 (Zpos (Qden x)) in
  if Qle_bool (2 ^ k) x then k else k - 1.

(** The exponent of the last place of the binary64 numbers around [x]:
    53 significant bits, the subnormal range starting below [2^-1022]. *)
Definition ulp_exponent (x : Q) : Z := Z.max (Qlog2 (Qabs x)) (-1022) - 52.

Definition round_fin (x : Q) : Q :=
  inject_Z (round_rat (x / 2 ^ ulp_exponent x)) * 2 ^ ulp_exponent x.

(** The binary64 number nearest to [x], ties to the even significand, as a
    value; what lies beyond the largest finite number comes out as
    [2^1024] or more. *)
Definition round_val (x : Q) : Q :=
  if Qeq_bool x 0 then 0 else round_fin x.

(** Rounding of an exact result to binary64. *)
Definition round64 (x : Q) : float :=
  let y := round_val x in
  if Qle_bool (2 ^ 1024) (Qabs y) then Inf (Qltb x 0) else Fin (Qred y).

(** [a + b] on floats *)
Definition fadd (a b : float) : float :=
  match a, b with
  | Fin x, Fin y => round64 (x + y)
  | Fin _, Inf s | Inf s, Fin _ => Inf s
  | Inf s, Inf s' => if Bool.eqb s s' then Inf s else NaN
  | NaN, _ | _, NaN => NaN
  end.

(** [a * b] on floats *)
Definition fmul (a b : float) : float :=
  match a, b with
  | Fin x, Fin y => round64 (x * y)
  | Fin x, Inf s | Inf s, Fin x =>
      if Qeq_bool x 0 then NaN else Inf (xorb s (Qltb x 0))
  | Inf s, Inf s' => Inf (xorb s s')
  | NaN, _ | _, NaN => NaN
  end.

(** [a / b] on floats; Python raises on a zero divisor. *)
Definition fdiv (a b : float) : result float :=
  match a, b with
  | NaN, Fin y => if Qeq_bool y 0 then Raise ZeroDivisionError else Ok NaN
  | NaN, _ | _, NaN => Ok NaN
  | Fin x, Fin y =>
      if Qeq_bool y 0 then Raise ZeroDivisionError else Ok (round64 (x / y))
  | Inf s, Fin y =>
      if Qeq_bool y 0 then Raise ZeroDivisionError else Ok (Inf (xorb s (Qltb y 0)))
  | Fin _, Inf _ => Ok (Fin 0)
  | Inf _, Inf _ => Ok NaN
  end.

(** [a < b] and [a <= b] on floats *)
Definition fltb (a b : float) : bool :=
  match a, b with
  | Fin x, Fin y => Qltb x y
  | Inf true, Fin _ | Fin _, Inf false | Inf true, Inf false => true
  | _, _ => false
  end.

Definition fleb (a b : float) : bool :=
  match a, b with
  | Fin x, Fin y => Qle_bool x y
  | Inf true, Fin _ | Fin _, Inf false => true
  | Inf s, Inf s' => implb s' s
  | _, _ => false
  end.

(** The conversion of an int that meets a float in [+] or [*]. *)
Definition float_of_int (n : Z) : result float :=
  match round64 (inject_Z n) with
  | Inf _ => Raise OverflowError
  | f => Ok f
  end.

(** [a / b] on ints: the float nearest to the quotient. *)
Definition int_true_div (a b : Z) : result float :=
  if b =? 0 then Raise ZeroDivisionError
  else
    match round64 (inject_Z a / inject_Z b) with
    | Inf _ => Raise OverflowError
    | f => Ok f
    end.

(** [int(x)] on a float: the integer part, toward zero. *)
Definition int_of_float (x : float) : result Z :=
  match x with
  | Fin q => Ok (int_of_rat q)
  | Inf _ => Raise OverflowError
  | NaN => Raise ValueError
  end.

(** A decimal literal: the float nearest to it. *)
Definition float_lit (q : Q) : float := round64 q.

(** [math.pi] *)
Definition math_pi : float := float_lit 3.141592653589793.

(** A reference sine for the closed examples, in fixed point with 160
    binary places: the argument is brought within a quarter turn of zero,
    the series summed and the sum rounded to binary64.  Below [2^-27] the
    sine rounds to its argument.  The C library's sine is not bound to
    agree with it in the last bit. *)
Definition sin_scale : Z := 2 ^ 160.

(** [pi * 2^160], the integer part *)
Definition pi_scaled : Z := 4591442807048218921384805199743311128454155024418.

Fixpoint sin_series (n : nat) (i term y2 : Z) : Z :=
  match n with
  | O => 0
  | S n' =>
      term +
      sin_series n' (i + 1)
        (- (term * y2) / (sin_scale * ((2 * i + 2) * (2 * i + 3)))) y2
  end.

Definition sin_ref (x : Q) : Q :=
  if Qle_bool (Qabs x) (2 ^ (-27)) then x
  else
    let X := Qfloor (x * inject_Z sin_scale) in
    let k := (2 * X + pi_scaled) / (2 * pi_scaled) in
    let Y := X - k * pi_scaled in
    let S := sin_series 20 0 Y (Y * Y / sin_scale) in
    let v := Qred (round_val (inject_Z (if Z.even k then S else - S) / inject_Z sin_scale)) in
    if Qle_bool v (-1) then -1 else if Qle_bool 1 v then 1 else v.


(** ** Process state *)

(** A [threading.Thread] running [worker_task(worker_id)]; [alive] is what
    [is_alive()] answers. *)
Record Thread : Type := mkThread { worker_id : Z; alive : bool }.

(** The records handed to [logger]. *)
Inductive log_record : Type :=
| ScaledUp (target current : Z)
| ScalingDown (to_stop current target : Z)
| ManagerError (e : exn)
| PatternModeChanged (v : json)
| BaseLoadChanged (n : Z)
| MaxLoadChanged (n : Z)
| CycleDurationChanged (n : Z)
| ManualWorkersSet (n : Z)
| PatternChanged (name : string).

(** Labels of one [requests_total] child: method, endpoint, status. *)
Definition labels : Type := string * string * string.

Record state : Type := mkState {
  PATTERN_MODE : json;
  BASE_LOAD : Z;
  MAX_LOAD : Z;
  CYCLE_DURATION : Z;
  ENABLED : bool;
  workers : list Thread;
  current_load_level : Z;
  manual_workers : Z;
  requests_total : gmap labels nat;
  memory_usage_bytes : Z;
  cpu_usage_estimate : Q;
  active_workers : Z;
  load_level : Z;
  log : list log_record
}.

Definition set_PATTERN_MODE (v : json) (st : state) : state :=
  mkState v (BASE_LOAD st) (MAX_LOAD st) (CYCLE_DURATION st) (ENABLED st)
    (workers st) (current_load_level st) (manual_workers st)
    (requests_total st) (memory_usage_bytes st) (cpu_usage_estimate st)
    (active_workers st) (load_level st) (log st).

Definition set_BASE_LOAD (n : Z) (st : state) : state :=
  mkState (PATTERN_MODE st) n (MAX_LOAD st) (CYCLE_DURATION st) (ENABLED st)
    (workers st) (current_load_level st) (manual_workers st)
    (requests_total st) (memory_usage_bytes st) (cpu_usage_estimate st)
    (active_workers st) (load_level st) (log st).

Definition set_MAX_LOAD (n : Z) (st : state) : state :=
  mkState (PATTERN_MODE st) (BASE_LOAD st) n (CYCLE_DURATION st) (ENABLED st)
    (workers st) (current_load_level st) (manual_workers st)
    (requests_total st) (memory_usage_bytes st) (cpu_usage_estimate st)
    (active_workers st) (load_level st) (log st).

Definition set_CYCLE_DURATION (n : Z) (st : state) : state :=
  mkState (PATTERN_MODE st) (BASE_LOAD st) (MAX_LOAD st) n (ENABLED st)
    (workers st) (current_load_level st) (manual_workers st)
    (requests_total st) (memory_usage_bytes st) (cpu_usage_estimate st)
    (active_workers st) (load_level st) (log st).

Definition set_workers (ws : list Thread) (st : state) : state :=
  mkState (PATTERN_MODE st) (BASE_LOAD st) (MAX_LOAD st) (CYCLE_DURATION st)
    (ENABLED st) ws (current_load_level st) (manual_workers st)
    (requests_total st) (memory_usage_bytes st) (cpu_usage_estimate st)
    (active_workers st) (load_level st) (log st).

Definition set_current_load_level (n : Z) (st : state) : state :=
  mkState (PATTERN_MODE st) (BASE_LOAD st) (MAX_LOAD st) (CYCLE_DURATION st)
    (ENABLED st) (workers st) n (manual_workers st)
    (requests_total st) (memory_usage_bytes st) (cpu_usage_estimate st)
    (active_workers st) (load_level st) (log st).

Definition set_manual_workers (n : Z) (st : state) : state :=
  mkState (PATTERN_MODE st) (BASE_LOAD st) (MAX_LOAD st) (CYCLE_DURATION st)
    (ENABLED st) (workers st) (current_load_level st) n
    (requests_total st) (memory_usage_bytes st) (cpu_usage_estimate st)
    (active_workers st) (load_level st) (log st).

Definition set_requests_total (c : gmap labels nat) (st : state) : state :=
  mkState (PATTERN_MODE st) (BASE_LOAD st) (MAX_LOAD st) (CYCLE_DURATION st)
    (ENABLED st) (workers st) (current_load_level st) (manual_workers st)
    c (memory_usage_bytes st) (cpu_usage_estimate st)
    (active_workers st) (load_level st) (log st).

Definition set_memory_usage_bytes (n : Z) (st : state) : state :=
  mkState (PATTERN_MODE st) (BASE_LOAD st) (MAX_LOAD st) (CYCLE_DURATION st)
    (ENABLED st) (workers st) (current_load_level st) (manual_workers st)
    (requests_total st) n (cpu_usage_estimate st)
    (active_workers st) (load_level st) (log st).

Definition set_cpu_usage_estimate (q : Q) (st : state) : state :=
  mkState (PATTERN_MODE st) (BASE_LOAD st) (MAX_LOAD st) (CYCLE_DURATION st)
    (ENABLED st) (workers st) (current_load_level st) (manual_workers st)
    (requests_total st) (memory_usage_bytes st) q
    (active_workers st) (load_level st) (log st).

Definition set_active_workers (n : Z) (st : state) : state :=
  mkState (PATTERN_MODE st) (BASE_LOAD st) (MAX_LOAD st) (CYCLE_DURATION st)
    (ENABLED st) (workers st) (current_load_level st) (manual_workers st)
    (requests_total st) (memory_usage_bytes st) (cpu_usage_estimate st)
    n (load_level st) (log st).

Definition set_load_level (n : Z) (st : state) : state :=
  mkState (PATTERN_MODE st) (BASE_LOAD st) (MAX_LOAD st) (CYCLE_DURATION st)
    (ENABLED st) (workers st) (current_load_level st) (manual_workers st)
    (requests_total st) (memory_usage_bytes st) (cpu_usage_estimate st)
    (active_workers st) n (log st).

Definition set_log (l : list log_record) (st : state) : state :=
  mkState (PATTERN_MODE st) (BASE_LOAD st) (MAX_LOAD st) (CYCLE_DURATION st)
    (ENABLED st) (workers st) (current_load_level st) (manual_workers st)
    (requests_total st) (memory_usage_bytes st) (cpu_usage_estimate st)
    (active_workers st) (load_level st) l.

(** The globals as the module body leaves them, from the five environment
    settings; [manual_workers] starts as [BASE_LOAD]. *)
Definition initial_state (pattern : string) (base max cycle : Z)
    (enabled : bool) : state :=
  mkState (JStr pattern) base max cycle enabled [] 0 base ∅ 0 0%Q 0 0 [].

Definition default_state : state := initial_state "wave" 10 50 120 true.

(** ** Statements: state passing with exceptions *)

Definition M (A : Type) : Type := state -> result A * state.

Definition ret {A} (a : A) : M A := fun st => (Ok a, st).

Definition bind {A B} (c : M A) (k : A -> M B) : M B :=
  fun st =>
    match c st with
    | (Ok a, st') => k a st'
    | (Raise e, st') => (Raise e, st')
    end.

Definition raise {A} (e : exn) : M A := fun st => (Raise e, st).

Definition lift {A} (r : result A) : M A := fun st => (r, st).

Definition gets {A} (f : state -> A) : M A := fun st => (Ok (f st), st).

Definition modify (f : state -> state) : M unit := fun st => (Ok tt, f st).

Definition when (b : bool) (c : M unit) : M unit := if b then c else ret tt.

(** [try: c except Exception as e: h e] *)
Definition try_except {A} (c : M A) (h : exn -> M A) : M A :=
  fun st =>
    match c st with
    | (Ok a, st') => (Ok a, st')
    | (Raise e, st') => h e st'
    end.

Declare Scope py_scope.
Delimit Scope py_scope with py.
Notation "x <- c ;; k" := (bind c (fun x => k))
  (at level 100, c at next level, right associativity) : py_scope.
Notation "c ;; k" := (bind c (fun _ => k))
  (at level 100, right associativity) : py_scope.
#[local] Open Scope py_scope.

Definition logger (r : log_record) : M unit :=
  modify (fun st => set_log (log st ++ [r]) st).

(** [requests_total.labels(method, endpoint, status).inc()] *)
Definition requests_total_inc (method endpoint status : string) : M unit :=
  modify (fun st =>
    let k : labels := (method, endpoint, status) in
    set_requests_total
      (<[k := S (default 0%nat (requests_total st !! k))]> (requests_total st)) st).

(** ** The work of one worker *)

(** [sum(i ** 2 for i in range(1000))] *)
Definition work_unit : Z :=
  fold_left Z.add (map (fun i => Z.of_nat i ^ 2) (seq 0 1000)) 0.

(** The [while] loop of [compute_work], over the readings of [time.time()]
    that its test takes, in order; [None] when the readings end with the
    loop still going. *)
Fixpoint compute_work_loop (duration start : Q) (clock : list Q) (result : Z)
    : option Z :=
  match clock with
  | [] => None
  | now :: clock' =>
      if Qltb (now - start) duration
      then compute_work_loop duration start clock' (result + work_unit)
      else Some result
  end.

(** [compute_work(duration)]; the first reading of the clock is [start]. *)
Definition compute_work (duration : Q) (clock : list Q) : option Z :=
  match clock with
  | [] => None
  | start :: clock' => compute_work_loop duration start clock' 0
  end.

(** ** The pattern function *)

Section Libm.

(** What [math.sin] returns on a finite argument: the C library's sine,
    by its value. *)
Variable libm_sin : Q -> Q.

(** A sine is within [[-1, 1]]. *)
Hypothesis libm_sin_range :
  forall x, (-1 <= libm_sin x)%Q /\ (libm_sin x <= 1)%Q.

(** [math.sin(x)] *)
Definition math_sin (x : float) : result float :=
  match x with
  | Fin q => Ok (Fin (libm_sin q))
  | Inf _ => Raise ValueError
  | NaN => Ok NaN
  end.

(** [(cycle_time % CYCLE_DURATION) / CYCLE_DURATION]: the position in the
    cycle.  Both operators raise on a zero [CYCLE_DURATION]. *)
Definition position_in_cycle (cycle_time : Z) : M float :=
  c <- gets CYCLE_DURATION ;;
  if c =? 0 then raise ZeroDivisionError
  else lift (int_true_div (cycle_time mod c) c).

(** [calculate_target_workers(mode, cycle_time)].  [rnd] is the number
    that [random.random()] returns if the [random] branch asks for one. *)
Definition calculate_target_workers (mode : json) (cycle_time : Z) (rnd : Q)
    : M Z :=
  if py_eq_str mode "manual" then gets manual_workers
  else
    position <- position_in_cycle cycle_time ;;
    if py_eq_str mode "wave" then
      s <- lift (math_sin (fmul (fmul position (Fin 2)) math_pi)) ;;
      load_factor <- lift (fdiv (fadd s (Fin 1)) (Fin 2)) ;;
      level <- lift (int_of_float (fmul load_factor (Fin 100))) ;;
      modify (set_current_load_level level) ;;
      base <- gets BASE_LOAD ;;
      max <- gets MAX_LOAD ;;
      span <- lift (float_of_int (max - base)) ;;
      b <- lift (float_of_int base) ;;
      lift (int_of_float (fadd b (fmul span load_factor)))
    else if py_eq_str mode "spike" then
      if fltb position (float_lit 0.1)
         || (fleb (float_lit 0.5) position && fltb position (float_lit 0.6))
      then
        modify (set_current_load_level 100) ;;
        gets MAX_LOAD
      else
        modify (set_current_load_level 20) ;;
        base <- gets BASE_LOAD ;;
        max <- gets MAX_LOAD ;;
        span <- lift (float_of_int (max - base)) ;;
        fifth <- lift (int_of_float (fmul span (float_lit 0.2))) ;;
        ret (base + fifth)
    else if py_eq_str mode "random" then
      let load_factor := Fin rnd in
      level <- lift (int_of_float (fmul load_factor (Fin 100))) ;;
      modify (set_current_load_level level) ;;
      base <- gets BASE_LOAD ;;
      max <- gets MAX_LOAD ;;
      span <- lift (float_of_int (max - base)) ;;
      b <- lift (float_of_int base) ;;
      lift (int_of_float (fadd b (fmul span load_factor)))
    else gets BASE_LOAD.

(** ** The worker manager *)

(** [len([w for w in workers if w.is_alive()])] *)
Definition alive_count (ws : list Thread) : Z :=
  Z.of_nat (length (List.filter alive ws)).

(** The body of [for i in range(n)], from index [i] on: a thread is made
    with argument [len(workers) + i], started and appended.  [len(workers)]
    is read in each round, after the appends of the rounds before.  A
    started thread is alive: [worker_task] loops until [stop_event] is
    set, and nothing in the module sets it. *)
Fixpoint spawn_workers (n : nat) (i : Z) (ws : list Thread) : list Thread :=
  match n with
  | O => ws
  | S n' =>
      let worker := mkThread (Z.of_nat (length ws) + i) true in
      spawn_workers n' (i + 1) (ws ++ [worker])
  end.

(** The adjustment of the pool toward [target] (the [if target > current]
    statement of the loop body). *)
Definition reconcile (target : Z) : M unit :=
  ws <- gets workers ;;
  let current := alive_count ws in
  if target >? current then
    modify (set_workers (spawn_workers (Z.to_nat (target - current)) 0 ws)) ;;
    logger (ScaledUp target current)
  else if target <? current then
    let to_stop := current - target in
    logger (ScalingDown to_stop current target)
  else ret tt.

(** What one iteration reads from outside the program: the whole seconds
    since the loop started, the next [random.random()], and the two
    [psutil] readings. *)
Record sample : Type := mkSample {
  elapsed : Z;
  rnd : Q;
  rss : Z;
  cpu_percent : Q
}.

(** One round of the [while] loop of [manage_workers], the sleep left out. *)
Definition manage_workers_iteration (s : sample) : M unit :=
  try_except
    (enabled <- gets ENABLED ;;
     when enabled
       (mode <- gets PATTERN_MODE ;;
        target <- calculate_target_workers mode (elapsed s) (rnd s) ;;
        reconcile target ;;
        modify (fun st => set_active_workers (alive_count (workers st)) st) ;;
        modify (fun st => set_load_level (current_load_level st) st)) ;;
     modify (set_memory_usage_bytes (rss s)) ;;
     modify (set_cpu_usage_estimate (cpu_percent s / 100)%Q))
    (fun e => logger (ManagerError e)).

(** ** The administrative handlers *)

Inductive response : Type :=
| Json (status : Z) (body : json)
| InternalServerError.

(** The framework around a view function: an exception that leaves the
    view becomes a 500 response. *)
Definition view (h : M response) (st : state) : response * state :=
  match h st with
  | (Ok r, st') => (r, st')
  | (Raise _, st') => (InternalServerError, st')
  end.

Definition repr_str (s : string) : string := "'" +:+ s +:+ "'".

Definition repr_list (l : list string) : string :=
  "[" +:+ String.concat ", " (map repr_str l) +:+ "]".

Definition valid_patterns : list string := ["wave"; "spike"; "random"; "manual"].

(** [set_pattern(pattern_name)], the view of [POST /pattern/<pattern_name>] *)
Definition set_pattern (pattern_name : string) : M response :=
  if negb (bool_decide (pattern_name ∈ valid_patterns)) then
    requests_total_inc "POST" "/pattern" "400" ;;
    ret (Json 400 (JObj {[ "error" :=
      JStr ("Invalid pattern. Must be one of: " +:+ repr_list valid_patterns) ]}))
  else
    modify (set_PATTERN_MODE (JStr pattern_name)) ;;
    logger (PatternChanged pattern_name) ;;
    requests_total_inc "POST" "/pattern" "200" ;;
    ret (Json 200 (JObj {[ "status" := JStr "success";
                           "pattern" := JStr pattern_name ]})).

Section Config.

(** Python's [int] on a string: the integer the literal denotes, if it is
    one. *)
Variable int_of_str : string -> option Z.

(** [int(v)] *)
Definition py_int (v : json) : result Z :=
  match v with
  | JInt n => Ok n
  | JBool b => Ok (if b then 1 else 0)
  | JFloat q => Ok (int_of_rat q)
  | JStr s => match int_of_str s with Some n => Ok n | None => Raise ValueError end
  | JNull | JArr _ | JObj _ => Raise TypeError
  end.

(** [if key in data: k(data[key])] *)
Definition if_present (key : string) (data : json) (k : json -> M unit)
    : M unit :=
  present <- lift (py_contains key data) ;;
  when present (v <- lift (py_getitem data key) ;; k v).

(** [update_config()], the view of [POST /config]; [body] is what
    [request.get_json()] returned. *)
Definition update_config (body : json) : M response :=
  let data := if truthy body then body else JObj ∅ in
  if_present "pattern_mode" data (fun v =>
    modify (set_PATTERN_MODE v) ;;
    logger (PatternModeChanged v)) ;;
  if_present "base_load" data (fun v =>
    n <- lift (py_int v) ;;
    modify (set_BASE_LOAD n) ;;
    logger (BaseLoadChanged n)) ;;
  if_present "max_load" data (fun v =>
    n <- lift (py_int v) ;;
    modify (set_MAX_LOAD n) ;;
    logger (MaxLoadChanged n)) ;;
  if_present "cycle_duration" data (fun v =>
    n <- lift (py_int v) ;;
    modify (set_CYCLE_DURATION n) ;;
    logger (CycleDurationChanged n)) ;;
  if_present "workers" data (fun v =>
    n <- lift (py_int v) ;;
    modify (set_manual_workers n) ;;
    logger (ManualWorkersSet n)) ;;
  requests_total_inc "POST" "/config" "200" ;;
  st <- gets (fun st => st) ;;
  ret (Json 200 (JObj {[
    "status" := JStr "success";
    "config" := JObj {[
      "pattern_mode" := PATTERN_MODE st;
      "base_load" := JInt (BASE_LOAD st);
      "max_load" := JInt (MAX_LOAD st);
      "cycle_duration" := JInt (CYCLE_DURATION st);
      "manual_workers" := JInt (manual_workers st) ]} ]})).

End Config.


(** ** The controller and the handlers as one process *)

Section Process.

Variable int_of_str : string -> option Z.

(** What happens to the process: the manager loop comes round, or one of
    the two administrative requests arrives. *)
Inductive event : Type :=
| Tick (s : sample)
| PostConfig (body : json)
| PostPattern (name : string).

Definition step (st : state) (ev : event) : state :=
  match ev with
  | Tick s => snd (manage_workers_iteration s st)
  | PostConfig body => snd (view (update_config int_of_str body) st)
  | PostPattern name => snd (view (set_pattern name) st)
  end.

Definition run (evs : list event) (st : state) : state :=
  fold_left step evs st.

End Process.

(** ** The specification's window *)

(** The [spike] window on the exact position: the first tenth of the
    cycle and the tenth after its middle. *)
Definition in_spike_window (p : Q) : Prop :=
  (p < 1 # 10)%Q \/ ((1 # 2) <= p)%Q /\ (p < 6 # 10)%Q.

(** ** Derived notions used by the properties *)

(** The four fields that go through [int]. *)
Definition numeric_fields : list string :=
  ["base_load"; "max_load"; "cycle_duration"; "workers"].

(** The value of a finite float. *)
Definition float_value (x : float) : Q :=
  match x with
  | Fin q => q
  | _ => 0%Q
  end.

(** The loads that binary64 holds exactly, their difference included. *)
Definition exact_loads (st : state) : Prop :=
  Z.abs (BASE_LOAD st) <= 2 ^ 53 /\ Z.abs (MAX_LOAD st) <= 2 ^ 53 /\
  Z.abs (MAX_LOAD st - BASE_LOAD st) <= 2 ^ 53.

(** The float that [position_in_cycle] returns for a nonzero
    [CYCLE_DURATION], and the argument that the [wave] branch hands to
    [math.sin]: [position * 2 * math.pi]. *)
Definition float_position (st : state) (cycle_time : Z) : float :=
  round64 (inject_Z (cycle_time mod CYCLE_DURATION st) / inject_Z (CYCLE_DURATION st)).

Definition wave_angle (st : state) (cycle_time : Z) : Q :=
  float_value (fmul (fmul (float_position st cycle_time) (Fin 2)) math_pi).

(** The last statement of the [wave] and [random] branches:
    [return int(BASE_LOAD + (MAX_LOAD - BASE_LOAD) * load_factor)]; the
    two ints are converted where they meet the float. *)
Definition scaled_target (load_factor : float) : M Z :=
  base <- gets BASE_LOAD ;;
  max <- gets MAX_LOAD ;;
  span <- lift (float_of_int (max - base)) ;;
  b <- lift (float_of_int base) ;;
  lift (int_of_float (fadd b (fmul span load_factor))).

(** [angle_of p] is that argument as a function of the exact position:
    the quotient, the doubling and the product with [math.pi], each
    rounded. *)
Definition angle_of (p : Q) : Q :=
  round_val (round_val (round_val p * 2) * float_value math_pi).

(** What [scaled_target] returns, from the two loads. *)
Definition scaled_result (base max : Z) (load_factor : float) : result Z :=
  match float_of_int (max - base) with
  | Raise e => Raise e
  | Ok span =>
      match float_of_int base with
      | Raise e => Raise e
      | Ok b => int_of_float (fadd b (fmul span load_factor))
      end
  end.

(** The test of the [spike] branch on the position, and what its low
    plateau returns. *)
Definition spike_test (position : float) : bool :=
  fltb position (float_lit 0.1)
  || (fleb (float_lit 0.5) position && fltb position (float_lit 0.6)).

Definition fifth_result (base max : Z) : result Z :=
  match float_of_int (max - base) with
  | Raise e => Raise e
  | Ok span =>
      match int_of_float (fmul span (float_lit 0.2)) with
      | Raise e => Raise e
      | Ok fifth => Ok (base + fifth)
      end
  end.

(** The [wave] and [random] branches from the load factor on: the load
    level is stored, then the target returned. *)
Definition load_tail (load_factor : float) : M Z :=
  level <- lift (int_of_float (fmul load_factor (Fin 100))) ;;
  modify (set_current_load_level level) ;;
  scaled_target load_factor.

(** The formulas of the patterns, each operation rounded to binary64 and
    [int] cutting the fraction off: the load factor of [wave] from the
    sine, the load level and the target from a load factor. *)
Definition wave_factor (sine : Q) : Q := round_val (round_val (sine + 1) / 2).

Definition factor_level (factor : Q) : Z := int_of_rat (round_val (factor * 100)).

Definition factor_target (base max : Z) (factor : Q) : Z :=
  int_of_rat
    (round_val (inject_Z base + round_val (inject_Z (max - base) * factor))).

(** A statement that ends, normally or not, with [proj] of the state as it
    found it. *)
Definition preserves {T A} (proj : state -> T) (c : M A) : Prop :=
  forall st, proj (snd (c st)) = proj st.

(** The part of the state that belongs to the worker manager. *)
Definition manager_view (st : state) : bool * list Thread * Z * Z * Z :=
  (ENABLED st, workers st, current_load_level st, active_workers st, load_level st).

(** The configuration that [/config] writes. *)
Definition config_view (st : state) : json * Z * Z * Z * Z :=
  (PATTERN_MODE st, BASE_LOAD st, MAX_LOAD st, CYCLE_DURATION st, manual_workers st).

(** The position in the cycle at [cycle_time], for a nonzero
    [CYCLE_DURATION]. *)
Definition cycle_position (st : state) (cycle_time : Z) : Q :=
  (inject_Z (cycle_time mod CYCLE_DURATION st) / inject_Z (CYCLE_DURATION st))%Q.

(** What [random.random()] can return. *)
Definition unit_draw (r : Q) : Prop := (0 <= r)%Q /\ (r < 1)%Q.

(** The events whose loop rounds draw their random number from [[0, 1)]. *)
Definition draws_in_unit (ev : event) : Prop :=
  match ev with
  | Tick s => unit_draw (rnd s)
  | _ => True
  end.

(** The load level and the gauges are as their descriptions say: a
    percentage, and a count of workers that the pool holds. *)
Definition gauges_in_range (st : state) : Prop :=
  0 <= current_load_level st <= 100 /\
  0 <= load_level st <= 100 /\
  0 <= active_workers st <= Z.of_nat (length (workers st)).

(** [requests_total] after one more request with labels [k]. *)
Definition counted_once (k : labels) (c : gmap labels nat) : gmap labels nat :=
  <[k := S (default 0%nat (c !! k))]> c.

(** How a [/config] request may end, seen from the request counter that
    stood at [c0] before: answered (then with a JSON body, and counted
    once under [k]), or left by an exception (then not counted). *)
Definition counts_success (k : labels) (c0 : gmap labels nat)
    (out : result response * state) : Prop :=
  match out with
  | (Ok (Json _ _), st') => requests_total st' = counted_once k c0
  | (Ok InternalServerError, _) => False
  | (Raise _, st') => requests_total st' = c0
  end.

(** [PATTERN_MODE] holds one of the four pattern names. *)
Definition known_pattern (st : state) : Prop :=
  exists s, In s valid_patterns /\ PATTERN_MODE st = JStr s.

(** The events that are no [/config] request. *)
Definition no_config_request (ev : event) : Prop :=
  match ev with
  | PostConfig _ => False
  | _ => True
  end.

(** * Properties *)

Ltac unfold_py :=
  unfold reconcile, position_in_cycle, logger, requests_total_inc, if_present,
    when, bind, ret, raise, lift, gets, modify, try_except, view in *.

(** ** Binary64 rounding *)

Lemma pow2_pos e : (0 < 2 ^ e)%Q.
Proof. apply Qpower_0_lt. reflexivity. Qed.

Lemma pow2_add a b : (2 ^ (a + b) == 2 ^ a * 2 ^ b)%Q.
Proof. apply Qpower_plus. discriminate. Qed.

Lemma pow2_succ a : (2 ^ (a + 1) == 2 * 2 ^ a)%Q.
Proof. rewrite pow2_add. change (2 ^ 1)%Q with 2%Q. ring. Qed.

Lemma pow2_le a b : a <= b -> (2 ^ a <= 2 ^ b)%Q.
Proof. intros H. apply Qpower_le_compat_l; [exact H | discriminate]. Qed.

Lemma pow2_lt a b : a < b -> (2 ^ a < 2 ^ b)%Q.
Proof. intros H. apply Qpower_lt_compat_l; [exact H | reflexivity]. Qed.

Lemma pow2_lt_inv a b : (2 ^ a < 2 ^ b)%Q -> a < b.
Proof. intros H. apply (Qpower_lt_compat_l_inv 2); [exact H | reflexivity]. Qed.

Lemma pow2_Z n : 0 <= n -> (inject_Z (2 ^ n) == 2 ^ n)%Q.
Proof. intros H. rewrite Zpower_Qpower by assumption. reflexivity. Qed.

Lemma Qlog2_spec x : (0 < x)%Q -> (2 ^ Qlog2 x <= x)%Q /\ (x < 2 ^ (Qlog2 x + 1))%Q.
Proof.
  intros Hx. destruct x as [n d]. unfold Qlog2. simpl Qnum. simpl Qden.
  assert (Hn : 0 < n) by (unfold Qlt in Hx; simpl in Hx; lia).
  pose proof (Z.log2_spec n Hn) as [Ln Un].
  pose proof (Z.log2_spec (Z.pos d) ltac:(lia)) as [Ld Ud].
  pose proof (Z.log2_nonneg n) as Nn. pose proof (Z.log2_nonneg (Z.pos d)) as Nd.
  set (ln := Z.log2 n) in *. set (ld := Z.log2 (Z.pos d)) in *.
  rewrite Z.pow_succ_r in Un, Ud by assumption.
  rewrite Zle_Qle in Ln, Ld. rewrite Zlt_Qlt in Un, Ud.
  rewrite inject_Z_mult in Un, Ud.
  rewrite pow2_Z in Ln, Ld, Un, Ud by assumption.
  change (inject_Z 2) with 2%Q in Un, Ud.
  assert (Hk : (2 ^ (ln - ld) * 2 ^ ld == 2 ^ ln)%Q).
  { rewrite <- pow2_add. replace (ln - ld + ld) with ln by lia. reflexivity. }
  assert (Hk1 : (2 ^ (ln - ld - 1) * 2 == 2 ^ (ln - ld))%Q).
  { replace (ln - ld) with (ln - ld - 1 + 1) at 2 by lia. rewrite pow2_succ. ring. }
  assert (Hxd : ((n # d) * inject_Z (Z.pos d) == inject_Z n)%Q).
  { rewrite (Qmake_Qdiv n d). field. discriminate. }
  pose proof (pow2_pos (ln - ld)) as Pk. pose proof (pow2_pos (ln - ld - 1)) as Pk1.
  pose proof (pow2_pos ld) as Pd. pose proof (pow2_pos ln) as Pn.
  assert (Dpos : (0 < inject_Z (Z.pos d))%Q) by reflexivity.
  set (x := (n # d)%Q) in *. set (D := inject_Z (Z.pos d)) in *.
  set (N := inject_Z n) in *.
  set (A := (2 ^ ln)%Q) in *. set (B := (2 ^ ld)%Q) in *.
  assert (U : (x < 2 * 2 ^ (ln - ld))%Q).
  { set (P := (2 ^ (ln - ld))%Q) in *. apply Qnot_le_lt. intros C.
    assert ((2 * P) * D <= x * D)%Q by (apply Qmult_le_compat_r; lra).
    assert ((2 * P) * B <= (2 * P) * D)%Q by (apply Qmult_le_l; lra).
    lra. }
  assert (Lw : (2 ^ (ln - ld - 1) < x)%Q).
  { set (P := (2 ^ (ln - ld))%Q) in *. set (P1 := (2 ^ (ln - ld - 1))%Q) in *.
    apply Qnot_le_lt. intros C.
    assert (x * D <= P1 * D)%Q by (apply Qmult_le_compat_r; lra).
    assert (P1 * D < P1 * (2 * B))%Q by (apply Qmult_lt_l; lra).
    assert (P1 * (2 * B) == A)%Q by (rewrite <- Hk, <- Hk1; ring).
    lra. }
  destruct (Qle_bool (2 ^ (ln - ld)) x) eqn:T.
  - apply Qle_bool_iff in T. split; [exact T |]. rewrite pow2_succ. exact U.
  - assert (T' : ~ (2 ^ (ln - ld) <= x)%Q)
      by (intros C; apply Qle_bool_iff in C; congruence).
    apply Qnot_le_lt in T'. split; [lra |].
    replace (ln - ld - 1 + 1) with (ln - ld) by lia. exact T'.
Qed.

Lemma Qlog2_unique x k :
  (2 ^ k <= x)%Q -> (x < 2 ^ (k + 1))%Q -> Qlog2 x = k.
Proof.
  intros L U.
  assert (Hx : (0 < x)%Q) by (pose proof (pow2_pos k); lra).
  destruct (Qlog2_spec x Hx) as [L' U'].
  assert (Qlog2 x < k + 1) by (apply pow2_lt_inv; lra).
  assert (k < Qlog2 x + 1) by (apply pow2_lt_inv; lra).
  lia.
Qed.

Lemma Qlog2_le x y : (0 < x)%Q -> (x <= y)%Q -> Qlog2 x <= Qlog2 y.
Proof.
  intros Hx Hxy.
  destruct (Qlog2_spec x Hx) as [L _].
  destruct (Qlog2_spec y ltac:(lra)) as [_ U].
  assert (Qlog2 x < Qlog2 y + 1) by (apply pow2_lt_inv; lra). lia.
Qed.

(** Rounding to the nearest integer, ties to even. *)
Lemma round_rat_near x :
  (- (1 # 2) <= x - inject_Z (round_rat x))%Q /\ (x - inject_Z (round_rat x) <= 1 # 2)%Q.
Proof.
  unfold round_rat. pose proof (Qfloor_le x) as L. pose proof (Qlt_floor x) as U.
  rewrite inject_Z_plus in U. change (inject_Z 1) with 1%Q in U.
  set (f := Qfloor x) in *.
  destruct (Qcompare (x - inject_Z f) (1 # 2)) eqn:C.
  - apply Qeq_alt in C.
    destruct (Z.even f); [| rewrite inject_Z_plus; change (inject_Z 1) with 1%Q];
      split; lra.
  - apply Qlt_alt in C. split; lra.
  - apply Qgt_alt in C. rewrite inject_Z_plus. change (inject_Z 1) with 1%Q.
    split; lra.
Qed.

Lemma round_rat_tie x :
  (x - inject_Z (round_rat x) == 1 # 2)%Q \/ (x - inject_Z (round_rat x) == - (1 # 2))%Q ->
  Z.even (round_rat x) = true.
Proof.
  unfold round_rat. pose proof (Qfloor_le x) as L. pose proof (Qlt_floor x) as U.
  rewrite inject_Z_plus in U. change (inject_Z 1) with 1%Q in U.
  set (f := Qfloor x) in *.
  destruct (Qcompare (x - inject_Z f) (1 # 2)) eqn:C.
  - intros _. destruct (Z.even f) eqn:E; [exact E |].
    rewrite Z.even_add, E. reflexivity.
  - apply Qlt_alt in C. intros [H | H]; lra.
  - apply Qgt_alt in C. rewrite inject_Z_plus. change (inject_Z 1) with 1%Q.
    intros [H | H]; lra.
Qed.

Lemma round_rat_le x y : (x <= y)%Q -> round_rat x <= round_rat y.
Proof.
  intros H. destruct (round_rat_near x) as [Lx Ux]. destruct (round_rat_near y) as [Ly Uy].
  destruct (Z_le_gt_dec (round_rat x) (round_rat y)) as [| G]; [assumption | exfalso].
  assert (G' : round_rat y + 1 <= round_rat x) by lia.
  rewrite Zle_Qle, inject_Z_plus in G'. change (inject_Z 1) with 1%Q in G'.
  assert (Ex : (x - inject_Z (round_rat x) == - (1 # 2))%Q) by lra.
  assert (Ey : (y - inject_Z (round_rat y) == 1 # 2)%Q) by lra.
  assert (Er : (inject_Z (round_rat x) == inject_Z (round_rat y) + 1)%Q) by lra.
  pose proof (round_rat_tie x (or_intror Ex)) as Tx.
  pose proof (round_rat_tie y (or_introl Ey)) as Ty.
  assert (Er' : round_rat x = round_rat y + 1).
  { apply inject_Z_injective. rewrite inject_Z_plus. exact Er. }
  rewrite Er', Z.even_add, Ty in Tx. discriminate.
Qed.

Lemma round_rat_unique x r :
  (- (1 # 2) < x - inject_Z r)%Q -> (x - inject_Z r < 1 # 2)%Q -> round_rat x = r.
Proof.
  intros L U. destruct (round_rat_near x) as [Lx Ux].
  assert (A : (inject_Z r - 1 < inject_Z (round_rat x))%Q) by lra.
  assert (B : (inject_Z (round_rat x) < inject_Z r + 1)%Q) by lra.
  change 1%Q with (inject_Z 1) in A, B.
  rewrite <- inject_Z_plus in B. unfold Qminus in A. rewrite <- inject_Z_opp, <- inject_Z_plus in A.
  rewrite <- Zlt_Qlt in A, B. lia.
Qed.

Lemma round_rat_Z n : round_rat (inject_Z n) = n.
Proof. apply round_rat_unique; lra. Qed.

Lemma round_rat_ge n x : (inject_Z n <= x)%Q -> n <= round_rat x.
Proof. intros H. rewrite <- (round_rat_Z n). apply round_rat_le, H. Qed.

Lemma round_rat_le_Z n x : (x <= inject_Z n)%Q -> round_rat x <= n.
Proof. intros H. rewrite <- (round_rat_Z n). apply round_rat_le, H. Qed.

Lemma round_rat_comp x y : (x == y)%Q -> round_rat x = round_rat y.
Proof.
  intros H. apply Z.le_antisymm; apply round_rat_le; lra.
Qed.

#[local] Open Scope Q_scope.

Lemma Qabs_nonzero x : ~ x == 0 -> 0 < Qabs x.
Proof.
  intros H. apply Qabs_case; intros Hx.
  - destruct (Qlt_le_dec 0 x); [assumption |]. exfalso. apply H. lra.
  - destruct (Qlt_le_dec x 0); [lra |]. exfalso. apply H. lra.
Qed.

Lemma Qlog2_comp x y : 0 < x -> x == y -> Qlog2 x = Qlog2 y.
Proof.
  intros Hx E. destruct (Qlog2_spec y ltac:(lra)) as [L U].
  apply Qlog2_unique; lra.
Qed.

Lemma ulp_exponent_comp x y : ~ x == 0 -> x == y -> ulp_exponent x = ulp_exponent y.
Proof.
  intros Hx E. unfold ulp_exponent.
  rewrite (Qlog2_comp (Qabs x) (Qabs y)); [reflexivity | |].
  - apply Qabs_nonzero, Hx.
  - rewrite E. reflexivity.
Qed.

Lemma round_fin_comp x y : ~ x == 0 -> x == y -> round_fin x == round_fin y.
Proof.
  intros Hx E. unfold round_fin. rewrite (ulp_exponent_comp x y Hx E).
  rewrite (round_rat_comp (x / 2 ^ ulp_exponent y) (y / 2 ^ ulp_exponent y)).
  - reflexivity.
  - rewrite E. reflexivity.
Qed.

Lemma round_val_zero x : x == 0 -> round_val x = 0.
Proof.
  intros E. unfold round_val. apply Qeq_bool_iff in E. rewrite E. reflexivity.
Qed.

Lemma round_val_nonzero x : ~ x == 0 -> round_val x = round_fin x.
Proof.
  intros E. unfold round_val. destruct (Qeq_bool x 0) eqn:T; [| reflexivity].
  apply Qeq_bool_iff in T. contradiction.
Qed.

Lemma round_val_comp x y : x == y -> round_val x == round_val y.
Proof.
  intros E. destruct (Qeq_dec x 0) as [Z | NZ].
  - rewrite (round_val_zero x Z), (round_val_zero y); [reflexivity | lra].
  - rewrite (round_val_nonzero x NZ), (round_val_nonzero y).
    + apply round_fin_comp; assumption.
    + intros C. apply NZ. lra.
Qed.

#[local] Instance round_val_wd : Proper (Qeq ==> Qeq) round_val.
Proof. intros x y E. apply round_val_comp, E. Qed.

Lemma Qle_bool_comp a b c d : a == c -> b == d -> Qle_bool a b = Qle_bool c d.
Proof.
  intros E1 E2. destruct (Qle_bool a b) eqn:T1, (Qle_bool c d) eqn:T2; try reflexivity.
  - apply Qle_bool_iff in T1. assert (T : c <= d) by lra.
    apply Qle_bool_iff in T. congruence.
  - apply Qle_bool_iff in T2. assert (T : a <= b) by lra.
    apply Qle_bool_iff in T. congruence.
Qed.

Lemma Qltb_lt x y : Qltb x y = true <-> x < y.
Proof.
  unfold Qltb. rewrite negb_true_iff. split.
  - intros H. apply Qnot_le_lt. intros C. apply Qle_bool_iff in C. congruence.
  - intros H. destruct (Qle_bool y x) eqn:T; [| reflexivity].
    apply Qle_bool_iff in T. lra.
Qed.

Lemma Qltb_ge x y : Qltb x y = false <-> y <= x.
Proof.
  unfold Qltb. rewrite negb_false_iff. apply Qle_bool_iff.
Qed.

Lemma Qltb_comp a b c d : a == c -> b == d -> Qltb a b = Qltb c d.
Proof. intros E1 E2. unfold Qltb. f_equal. apply Qle_bool_comp; assumption. Qed.

Lemma round64_comp x y : x == y -> round64 x = round64 y.
Proof.
  intros E. unfold round64. pose proof (round_val_comp x y E) as V.
  rewrite (Qle_bool_comp (2 ^ 1024) (Qabs (round_val x)) (2 ^ 1024) (Qabs (round_val y)));
    [| reflexivity | rewrite V; reflexivity].
  rewrite (Qltb_comp x 0 y 0 E); [| reflexivity].
  rewrite (Qred_complete _ _ V). reflexivity.
Qed.

(** Rounding is symmetric about zero. *)
Lemma round_rat_opp q : round_rat (- q) = (- round_rat q)%Z.
Proof.
  destruct (round_rat_near q) as [L U].
  destruct (round_rat_near (- q)) as [L' U'].
  pose proof (round_rat_tie q) as T. pose proof (round_rat_tie (- q)) as T'.
  set (r := round_rat q) in *. set (r' := round_rat (- q)) in *.
  assert (A : (- r + - (1) <= r')%Z).
  { rewrite Zle_Qle, inject_Z_plus, !inject_Z_opp. change (inject_Z 1) with 1. lra. }
  assert (B : (r' <= - r + 1)%Z).
  { rewrite Zle_Qle, inject_Z_plus, !inject_Z_opp. change (inject_Z 1) with 1. lra. }
  destruct (Z.eq_dec r' (- r)) as [| N]; [assumption | exfalso].
  assert (C : r' = (- r + - (1))%Z \/ r' = (- r + 1)%Z) by lia.
  assert (I : inject_Z r' == - inject_Z r - 1 \/ inject_Z r' == - inject_Z r + 1).
  { destruct C as [C | C]; rewrite C, inject_Z_plus, !inject_Z_opp;
      change (inject_Z 1) with 1; [left | right]; ring. }
  assert (E : Z.even r = true) by (apply T; destruct I; [left | right]; lra).
  assert (E' : Z.even r' = true) by (apply T'; destruct I; [left | right]; lra).
  destruct C as [C | C]; rewrite C in E'.
  - replace (- r + - (1))%Z with (- (r + 1))%Z in E' by lia.
    rewrite Z.even_opp, Z.even_add, E in E'. discriminate.
  - replace (- r + 1)%Z with (- (r - 1))%Z in E' by lia.
    rewrite Z.even_opp, Z.even_sub, E in E'. discriminate.
Qed.

Lemma ulp_exponent_opp x : ~ x == 0 -> ulp_exponent (- x) = ulp_exponent x.
Proof.
  intros H. unfold ulp_exponent.
  rewrite (Qlog2_comp (Qabs (- x)) (Qabs x)); [reflexivity | |].
  - apply Qabs_nonzero. intros C. apply H. lra.
  - apply Qabs_opp.
Qed.

Lemma round_fin_opp x : ~ x == 0 -> round_fin (- x) == - round_fin x.
Proof.
  intros H. unfold round_fin. rewrite (ulp_exponent_opp x H).
  set (e := ulp_exponent x).
  rewrite (round_rat_comp (- x / 2 ^ e) (- (x / 2 ^ e))).
  - rewrite round_rat_opp, inject_Z_opp. ring.
  - field. pose proof (pow2_pos e). lra.
Qed.

Lemma round_fin_nonneg x : 0 < x -> 0 <= round_fin x.
Proof.
  intros H. unfold round_fin. set (e := ulp_exponent x).
  pose proof (pow2_pos e) as P.
  apply Qmult_le_0_compat; [| lra].
  change 0 with (inject_Z 0). rewrite <- Zle_Qle. apply round_rat_ge.
  change (inject_Z 0) with 0. apply Qle_shift_div_l; lra.
Qed.

Lemma round_fin_pos_le x y : 0 < x -> x <= y -> round_fin x <= round_fin y.
Proof.
  intros Hx Hxy. assert (Hy : 0 < y) by lra.
  unfold round_fin.
  assert (Ax : Qabs x == x) by (apply Qabs_pos; lra).
  assert (Ay : Qabs y == y) by (apply Qabs_pos; lra).
  assert (Lxy : (Qlog2 (Qabs x) <= Qlog2 (Qabs y))%Z) by (apply Qlog2_le; lra).
  destruct (Qlog2_spec (Qabs x) ltac:(lra)) as [Lx Ux].
  destruct (Qlog2_spec (Qabs y) ltac:(lra)) as [Ly Uy].
  unfold ulp_exponent.
  set (lx := Qlog2 (Qabs x)) in *. set (ly := Qlog2 (Qabs y)) in *.
  set (ex := (Z.max lx (-1022) - 52)%Z). set (ey := (Z.max ly (-1022) - 52)%Z).
  pose proof (pow2_pos ex) as Pex. pose proof (pow2_pos ey) as Pey.
  destruct (Z.eq_dec ex ey) as [E | NE].
  - rewrite E. apply Qmult_le_compat_r; [| lra].
    rewrite <- Zle_Qle. apply round_rat_le.
    apply Qmult_le_compat_r; [lra |]. apply Qlt_le_weak, Qinv_lt_0_compat, Pey.
  - assert (Hlt : (ex < ey)%Z) by lia.
    assert (Hly : (Z.max lx (-1022) + 1 <= ly)%Z) by lia.
    (* the mantissa of [x] is at most [2^53], that of [y] at least [2^52] *)
    assert (Mx : (round_rat (x / 2 ^ ex) <= 2 ^ 53)%Z).
    { apply round_rat_le_Z. rewrite pow2_Z by lia.
      apply Qle_shift_div_r; [lra |]. rewrite <- pow2_add.
      assert (2 ^ (lx + 1) <= 2 ^ (53 + ex)) by (apply pow2_le; lia). lra. }
    assert (My : (2 ^ 52 <= round_rat (y / 2 ^ ey))%Z).
    { apply round_rat_ge. rewrite pow2_Z by lia.
      apply Qle_shift_div_l; [lra |]. rewrite <- pow2_add.
      replace (52 + ey)%Z with ly by lia. lra. }
    rewrite Zle_Qle, pow2_Z in Mx, My by lia.
    assert (T1 : inject_Z (round_rat (x / 2 ^ ex)) * 2 ^ ex <= 2 ^ 53 * 2 ^ ex)
      by (apply Qmult_le_compat_r; lra).
    assert (T2 : 2 ^ 52 * 2 ^ ey <= inject_Z (round_rat (y / 2 ^ ey)) * 2 ^ ey)
      by (apply Qmult_le_compat_r; lra).
    rewrite <- pow2_add in T1, T2.
    assert (2 ^ (53 + ex) <= 2 ^ (52 + ey)) by (apply pow2_le; lia).
    lra.
Qed.

(** Rounding keeps the order. *)
Lemma round_val_le x y : x <= y -> round_val x <= round_val y.
Proof.
  intros H.
  assert (Neg : forall z, z < 0 -> round_fin z <= 0).
  { intros z Hz. assert (NZ : ~ z == 0) by lra.
    pose proof (round_fin_opp z NZ) as O.
    pose proof (round_fin_nonneg (- z) ltac:(lra)). lra. }
  destruct (Qeq_dec x 0) as [Zx | NZx], (Qeq_dec y 0) as [Zy | NZy].
  - rewrite (round_val_zero x Zx), (round_val_zero y Zy). lra.
  - rewrite (round_val_zero x Zx), (round_val_nonzero y NZy).
    apply round_fin_nonneg.
    destruct (Qlt_le_dec 0 y); [assumption |]. exfalso. apply NZy. lra.
  - rewrite (round_val_nonzero x NZx), (round_val_zero y Zy).
    apply Neg. destruct (Qlt_le_dec x 0); [assumption |]. exfalso. apply NZx. lra.
  - rewrite (round_val_nonzero x NZx), (round_val_nonzero y NZy).
    destruct (Qlt_le_dec 0 x) as [Px | Nx].
    + apply round_fin_pos_le; assumption.
    + assert (Hx : x < 0).
      { destruct (Qlt_le_dec x 0); [assumption |]. exfalso. apply NZx. lra. }
      destruct (Qlt_le_dec 0 y) as [Py | Ny].
      * pose proof (Neg x Hx). pose proof (round_fin_nonneg y Py). lra.
      * assert (Hy : y < 0).
        { destruct (Qlt_le_dec y 0); [assumption |]. exfalso. apply NZy. lra. }
        pose proof (round_fin_opp x NZx) as Ox.
        pose proof (round_fin_opp y NZy) as Oy.
        pose proof (round_fin_pos_le (- y) (- x) ltac:(lra) ltac:(lra)). lra.
Qed.

(** A number [n * 2^g] with [n] below [2^53] is a binary64 number. *)
Lemma round_val_exact n g :
  (Z.abs n < 2 ^ 53)%Z -> (-1074 <= g)%Z ->
  round_val (inject_Z n * 2 ^ g) == inject_Z n * 2 ^ g.
Proof.
  intros Hn Hg. pose proof (pow2_pos g) as Pg.
  destruct (Z.eq_dec n 0) as [-> | NZ].
  { rewrite round_val_zero; [| ring]. ring. }
  set (x := inject_Z n * 2 ^ g).
  assert (Ax : Qabs x == inject_Z (Z.abs n) * 2 ^ g).
  { unfold x. rewrite Qabs_Qmult, (Qabs_pos (2 ^ g)) by lra.
    unfold Qabs, inject_Z. simpl. reflexivity. }
  assert (P1 : 1 <= inject_Z (Z.abs n)).
  { change 1 with (inject_Z 1). rewrite <- Zle_Qle. lia. }
  assert (P53 : inject_Z (Z.abs n) < 2 ^ 53).
  { rewrite <- pow2_Z by lia. rewrite <- Zlt_Qlt. exact Hn. }
  assert (NZx : ~ x == 0).
  { intros C. rewrite C in Ax. change (Qabs 0) with 0 in Ax.
    assert (0 < inject_Z (Z.abs n) * 2 ^ g) by (apply Qmult_lt_0_compat; lra). lra. }
  rewrite (round_val_nonzero x NZx). unfold round_fin.
  destruct (Qlog2_spec (Qabs x) (Qabs_nonzero x NZx)) as [L U].
  set (l := Qlog2 (Qabs x)) in *.
  assert (Hl : (l < 53 + g)%Z).
  { apply pow2_lt_inv. rewrite pow2_add.
    assert (inject_Z (Z.abs n) * 2 ^ g < 2 ^ 53 * 2 ^ g) by (apply Qmult_lt_r; lra).
    lra. }
  unfold ulp_exponent. fold l. set (e := (Z.max l (-1022) - 52)%Z).
  assert (He : (e <= g)%Z) by lia.
  pose proof (pow2_pos e) as Pe.
  assert (Hg2 : 2 ^ g == 2 ^ (g - e) * 2 ^ e).
  { rewrite <- pow2_add. replace (g - e + e)%Z with g by lia. reflexivity. }
  assert (Hq : x / 2 ^ e == inject_Z (n * 2 ^ (g - e))).
  { unfold x. rewrite inject_Z_mult, pow2_Z by lia. rewrite Hg2. field. lra. }
  rewrite (round_rat_comp _ _ Hq), round_rat_Z.
  unfold x. rewrite inject_Z_mult, pow2_Z by lia. rewrite Hg2. ring.
Qed.

Lemma round64_Fin x q : round64 x = Fin q ->
  q == round_val x /\ Qabs (round_val x) < 2 ^ 1024.
Proof.
  unfold round64. destruct (Qle_bool (2 ^ 1024) (Qabs (round_val x))) eqn:T;
    [discriminate |].
  intros [= <-]. split; [apply Qred_correct |].
  apply Qnot_le_lt. intros C. apply Qle_bool_iff in C. congruence.
Qed.

Lemma round64_small x : Qabs (round_val x) < 2 ^ 1024 ->
  round64 x = Fin (Qred (round_val x)).
Proof.
  intros H. unfold round64.
  destruct (Qle_bool (2 ^ 1024) (Qabs (round_val x))) eqn:T; [| reflexivity].
  apply Qle_bool_iff in T. lra.
Qed.

(** Between two numbers that round to finite floats, every number does,
    and to a float between theirs. *)
Lemma round64_between lo hi x lo' hi' :
  round64 lo = Fin lo' -> round64 hi = Fin hi' -> lo <= x -> x <= hi ->
  exists q, round64 x = Fin q /\ lo' <= q /\ q <= hi'.
Proof.
  intros Hlo Hhi L U.
  apply round64_Fin in Hlo, Hhi. destruct Hlo as [El Bl], Hhi as [Eh Bh].
  pose proof (round_val_le lo x L) as Vl. pose proof (round_val_le x hi U) as Vh.
  apply Qabs_Qlt_condition in Bl, Bh.
  exists (Qred (round_val x)). split; [| rewrite Qred_correct; lra].
  apply round64_small. apply Qabs_Qlt_condition. lra.
Qed.

Lemma round64_le x y p q :
  round64 x = Fin p -> round64 y = Fin q -> x <= y -> p <= q.
Proof.
  intros Hx Hy H. apply round64_Fin in Hx, Hy.
  pose proof (round_val_le x y H). lra.
Qed.

Lemma round64_exact n g :
  (Z.abs n < 2 ^ 53)%Z -> (-1074 <= g <= 970)%Z ->
  round64 (inject_Z n * 2 ^ g) = Fin (Qred (inject_Z n * 2 ^ g)).
Proof.
  intros Hn Hg. pose proof (round_val_exact n g Hn ltac:(lia)) as E.
  rewrite round64_small.
  - f_equal. apply Qred_complete, E.
  - rewrite E, Qabs_Qmult. pose proof (pow2_pos g) as Pg.
    rewrite (Qabs_pos (2 ^ g)) by lra.
    assert (A : Qabs (inject_Z n) == inject_Z (Z.abs n)).
    { unfold Qabs, inject_Z. simpl. reflexivity. }
    rewrite A.
    assert (P53 : inject_Z (Z.abs n) < 2 ^ 53).
    { rewrite <- pow2_Z by lia. rewrite <- Zlt_Qlt. exact Hn. }
    assert (0 <= inject_Z (Z.abs n)).
    { change 0 with (inject_Z 0). rewrite <- Zle_Qle. lia. }
    assert (inject_Z (Z.abs n) * 2 ^ g <= 2 ^ 53 * 2 ^ g)
      by (apply Qmult_le_compat_r; lra).
    assert (2 ^ (53 + g) < 2 ^ 1024) by (apply pow2_lt; lia).
    rewrite <- pow2_add in *. lra.
Qed.

Lemma Qred_inject_Z n : Qred (inject_Z n) = inject_Z n.
Proof.
  apply Qcanon.Qred_identity. simpl. apply Z.gcd_1_r.
Qed.

(** An int up to [2^53] in size is a float. *)
Lemma round64_int n : (Z.abs n <= 2 ^ 53)%Z -> round64 (inject_Z n) = Fin (inject_Z n).
Proof.
  intros H. destruct (Z.eq_dec (Z.abs n) (2 ^ 53)) as [E | NE].
  - assert (C : n = (2 ^ 53)%Z \/ n = (- 2 ^ 53)%Z) by lia.
    destruct C as [-> | ->]; vm_compute; reflexivity.
  - rewrite (round64_comp (inject_Z n) (inject_Z n * 2 ^ 0)) by (change (2 ^ 0) with 1; ring).
    rewrite round64_exact by lia. f_equal.
    rewrite (Qred_complete _ (inject_Z n)) by (change (2 ^ 0) with 1; ring).
    apply Qred_inject_Z.
Qed.

#[local] Close Scope Q_scope.

(** ** Truncation *)

#[local] Open Scope Q_scope.

Lemma int_of_rat_nonneg q : 0 <= q -> int_of_rat q = Qfloor q.
Proof.
  destruct q as [n d]. unfold int_of_rat, Qfloor, Qle. simpl. intros H.
  apply Z.quot_div_nonneg; lia.
Qed.

Lemma int_of_rat_nonpos q : q <= 0 -> int_of_rat q = (- Qfloor (- q))%Z.
Proof.
  destruct q as [n d]. unfold int_of_rat, Qfloor, Qle, Qopp. simpl. intros H.
  rewrite <- (Z.quot_div_nonneg (- n) (Z.pos d)) by lia.
  rewrite Z.quot_opp_l by lia. lia.
Qed.

Lemma Qfloor_nonneg q : 0 <= q -> (0 <= Qfloor q)%Z.
Proof. intros H. change 0%Z with (Qfloor 0). apply Qfloor_resp_le, H. Qed.

Lemma int_of_rat_le p q : p <= q -> (int_of_rat p <= int_of_rat q)%Z.
Proof.
  intros H. destruct (Qlt_le_dec p 0) as [Np | Pp], (Qlt_le_dec q 0) as [Nq | Pq].
  - rewrite !int_of_rat_nonpos by lra.
    assert ((Qfloor (- q) <= Qfloor (- p))%Z) by (apply Qfloor_resp_le; lra). lia.
  - rewrite (int_of_rat_nonpos p), (int_of_rat_nonneg q) by lra.
    pose proof (Qfloor_nonneg (- p) ltac:(lra)). pose proof (Qfloor_nonneg q Pq). lia.
  - lra.
  - rewrite !int_of_rat_nonneg by lra. apply Qfloor_resp_le, H.
Qed.

Lemma int_of_rat_comp p q : p == q -> int_of_rat p = int_of_rat q.
Proof. intros H. apply Z.le_antisymm; apply int_of_rat_le; lra. Qed.

Lemma int_of_rat_inject n : int_of_rat (inject_Z n) = n.
Proof. unfold int_of_rat. simpl. apply Z.quot_1_r. Qed.

Lemma int_of_rat_between lo hi q :
  inject_Z lo <= q -> q <= inject_Z hi -> (lo <= int_of_rat q <= hi)%Z.
Proof.
  intros L U. apply int_of_rat_le in L, U. rewrite int_of_rat_inject in L, U.
  split; assumption.
Qed.

Lemma Qfloor_unit k q : inject_Z k <= q -> q < inject_Z (k + 1) -> Qfloor q = k.
Proof.
  intros L U. pose proof (Qfloor_le q) as A. pose proof (Qlt_floor q) as B.
  assert (C : inject_Z (Qfloor q) < inject_Z (k + 1)) by lra.
  assert (D : inject_Z k < inject_Z (Qfloor q + 1)) by lra.
  rewrite <- Zlt_Qlt in C, D. lia.
Qed.

(** Between two neighbouring integers the integer part is the one nearer
    to zero. *)
Lemma int_of_rat_unit k q :
  (0 <= k)%Z -> inject_Z k <= q -> q < inject_Z (k + 1) -> int_of_rat q = k.
Proof.
  intros Hk L U.
  assert (0 <= inject_Z k) by (change 0 with (inject_Z 0); rewrite <- Zle_Qle; exact Hk).
  rewrite int_of_rat_nonneg by lra. apply Qfloor_unit; assumption.
Qed.

Lemma int_of_rat_unit_neg k q :
  (0 <= k)%Z -> - inject_Z (k + 1) < q -> q <= - inject_Z k -> int_of_rat q = (- k)%Z.
Proof.
  intros Hk L U.
  assert (0 <= inject_Z k) by (change 0 with (inject_Z 0); rewrite <- Zle_Qle; exact Hk).
  rewrite int_of_rat_nonpos by lra. f_equal. apply Qfloor_unit; lra.
Qed.

(** ** Floats within bounds *)

Lemma round_val_int n : (Z.abs n <= 2 ^ 53)%Z -> round_val (inject_Z n) == inject_Z n.
Proof.
  intros H. destruct (Z.eq_dec (Z.abs n) (2 ^ 53)) as [E | NE].
  - assert (C : n = (2 ^ 53)%Z \/ n = (- 2 ^ 53)%Z) by lia.
    destruct C as [-> | ->]; vm_compute; reflexivity.
  - rewrite (round_val_comp (inject_Z n) (inject_Z n * 2 ^ 0)) by (change (2 ^ 0) with 1; ring).
    rewrite round_val_exact by lia. change (2 ^ 0) with 1. ring.
Qed.

Lemma round_val_0 : round_val 0 = 0.
Proof. reflexivity. Qed.

(** Between two ints that are floats a result rounds to a float between
    them. *)
Lemma round_val_between lo hi x :
  (Z.abs lo <= 2 ^ 53)%Z -> (Z.abs hi <= 2 ^ 53)%Z ->
  inject_Z lo <= x -> x <= inject_Z hi ->
  inject_Z lo <= round_val x /\ round_val x <= inject_Z hi.
Proof.
  intros Hlo Hhi L U.
  pose proof (round_val_le _ _ L) as A. pose proof (round_val_le _ _ U) as B.
  rewrite round_val_int in A, B by assumption. split; assumption.
Qed.

Lemma pow2_53_1024 : inject_Z (2 ^ 53) < 2 ^ 1024.
Proof. rewrite pow2_Z by lia. apply pow2_lt. lia. Qed.

(** A result that rounds to at most [2^53] in size is a finite float. *)
Lemma round64_finite x (lo hi : Z) :
  (Z.abs lo <= 2 ^ 53)%Z -> (Z.abs hi <= 2 ^ 53)%Z ->
  inject_Z lo <= x -> x <= inject_Z hi ->
  round64 x = Fin (Qred (round_val x)).
Proof.
  intros Hlo Hhi L U.
  destruct (round_val_between lo hi x Hlo Hhi L U) as [A B].
  apply round64_small. apply Qabs_Qlt_condition.
  pose proof pow2_53_1024 as P.
  assert (inject_Z (- 2 ^ 53) <= inject_Z lo) by (rewrite <- Zle_Qle; lia).
  assert (inject_Z hi <= inject_Z (2 ^ 53)) by (rewrite <- Zle_Qle; lia).
  rewrite inject_Z_opp in *. lra.
Qed.

#[local] Close Scope Q_scope.

(** ** The position in the cycle *)

(** The exact position is in [[0, 1)] for every nonzero [CYCLE_DURATION],
    negative ones included. *)
Lemma position_range t c :
  c <> 0 -> (0 <= inject_Z (t mod c) / inject_Z c < 1)%Q.
Proof.
  intros Hc. unfold Qdiv, Qinv, Qmult, Qle, Qlt, inject_Z.
  destruct c as [| p | p]; [contradiction | |]; simpl.
  - pose proof (Z.mod_pos_bound t (Z.pos p) ltac:(lia)). lia.
  - pose proof (Z.mod_neg_bound t (Z.neg p) ltac:(lia)). lia.
Qed.

(** The quotient of the two ints is a finite float in [[0, 1]]. *)
Lemma float_position_ok t st :
  CYCLE_DURATION st <> 0 ->
  float_position st t = Fin (Qred (round_val (cycle_position st t))).
Proof.
  intros Hc. unfold float_position. fold (cycle_position st t).
  pose proof (position_range t _ Hc) as [L U]. fold (cycle_position st t) in L, U.
  apply (round64_finite _ 0 1); [vm_compute; discriminate | vm_compute; discriminate | |].
  - exact L.
  - change (inject_Z 1) with 1%Q. lra.
Qed.

Lemma round_val_position t st :
  CYCLE_DURATION st <> 0 ->
  (0 <= round_val (cycle_position st t) <= 1)%Q.
Proof.
  intros Hc. pose proof (position_range t _ Hc) as [L U].
  fold (cycle_position st t) in L, U.
  apply (round_val_between 0 1); [vm_compute; discriminate | vm_compute; discriminate | |].
  - exact L.
  - change (inject_Z 1) with 1%Q. lra.
Qed.

Lemma position_in_cycle_ok t st :
  CYCLE_DURATION st <> 0 ->
  position_in_cycle t st = (Ok (float_position st t), st).
Proof.
  intros H. unfold_py. unfold int_true_div.
  destruct (Z.eqb_spec (CYCLE_DURATION st) 0); [contradiction |].
  fold (float_position st t). rewrite float_position_ok by assumption. reflexivity.
Qed.

Lemma position_in_cycle_zero t st :
  CYCLE_DURATION st = 0 -> position_in_cycle t st = (Raise ZeroDivisionError, st).
Proof. intros H. unfold_py. rewrite H. reflexivity. Qed.

Lemma py_eq_str_false mode s : mode <> JStr s -> py_eq_str mode s = false.
Proof.
  intros H. destruct mode; simpl; try reflexivity.
  destruct (String.eqb_spec s0 s); [subst; contradiction | reflexivity].
Qed.

(** ** The pool under [reconcile] *)

Lemma alive_count_app ws1 ws2 :
  alive_count (ws1 ++ ws2) = alive_count ws1 + alive_count ws2.
Proof.
  unfold alive_count. rewrite List.filter_app, length_app. lia.
Qed.

Lemma alive_count_le_length ws : alive_count ws <= Z.of_nat (length ws).
Proof.
  unfold alive_count. pose proof (List.filter_length_le alive ws). lia.
Qed.

Lemma alive_count_nonneg ws : 0 <= alive_count ws.
Proof. unfold alive_count. lia. Qed.

(** The loop appends [n] threads, all alive, behind the pool it found; the
    [k]-th of them got the argument [len + i + 2k]. *)
Lemma spawn_workers_spec n : forall i ws,
  spawn_workers n i ws =
    ws ++ map (fun k => mkThread (Z.of_nat (length ws) + i + 2 * Z.of_nat k) true)
              (seq 0 n).
Proof.
  induction n as [|n IH]; intros i ws; simpl.
  - now rewrite app_nil_r.
  - rewrite IH, <- app_assoc. f_equal. simpl. f_equal.
    + f_equal. lia.
    + rewrite <- seq_shift, map_map. apply map_ext. intros k.
      f_equal. rewrite length_app. simpl. lia.
Qed.

Lemma alive_count_spawned (f : nat -> Z) l :
  alive_count (map (fun k => mkThread (f k) true) l) = Z.of_nat (length l).
Proof.
  unfold alive_count. induction l as [|k l IH]; simpl; [reflexivity|].
  rewrite !Nat2Z.inj_succ. lia.
Qed.

Lemma reconcile_scale_up target st :
  alive_count (workers st) < target ->
  reconcile target st =
    (Ok tt,
     set_log (log st ++ [ScaledUp target (alive_count (workers st))])
       (set_workers
          (spawn_workers (Z.to_nat (target - alive_count (workers st))) 0
             (workers st)) st)).
Proof.
  intros H. unfold_py.
  destruct (Z.gtb_spec target (alive_count (workers st))); [reflexivity | lia].
Qed.

Lemma reconcile_scale_down target st :
  target < alive_count (workers st) ->
  reconcile target st =
    (Ok tt,
     set_log (log st ++ [ScalingDown (alive_count (workers st) - target)
                           (alive_count (workers st)) target]) st).
Proof.
  intros H. unfold_py.
  destruct (Z.gtb_spec target (alive_count (workers st))); [lia |].
  destruct (Z.ltb_spec target (alive_count (workers st))); [reflexivity | lia].
Qed.

Lemma reconcile_steady target st :
  target = alive_count (workers st) -> reconcile target st = (Ok tt, st).
Proof.
  intros H. unfold_py.
  destruct (Z.gtb_spec target (alive_count (workers st))); [lia |].
  destruct (Z.ltb_spec target (alive_count (workers st))); [lia | reflexivity].
Qed.

(** C3: one [reconcile] step keeps every pool entry as it was and only
    appends (the pool never shrinks); when the target is below the number
    of live workers the step does nothing but add one log record; after the
    step the live workers are no more than the pool holds and are exactly
    [previous_alive + max(0, target - previous_alive)]. *)
Theorem reconcile_pool_grows (target : Z) (st : state) :
  let current := alive_count (workers st) in
  let st' := snd (reconcile target st) in
  fst (reconcile target st) = Ok tt /\
  (exists new, workers st' = workers st ++ new) /\
  (length (workers st) <= length (workers st'))%nat /\
  (if target <? current
   then st' = set_log (log st ++ [ScalingDown (current - target) current target]) st
   else True) /\
  alive_count (workers st') <= Z.of_nat (length (workers st')) /\
  alive_count (workers st') = current + Z.max 0 (target - current).
Proof.
  intros current st'. subst st'.
  destruct (Z.lt_trichotomy target current) as [Hlt | [Heq | Hgt]]; subst current.
  - rewrite reconcile_scale_down by assumption. simpl.
    destruct (Z.ltb_spec target (alive_count (workers st))); [| lia].
    repeat split; try (exists []; now rewrite app_nil_r);
      auto using alive_count_le_length; lia.
  - rewrite reconcile_steady by assumption. simpl.
    destruct (Z.ltb_spec target (alive_count (workers st))); [lia |].
    repeat split; try (exists []; now rewrite app_nil_r);
      auto using alive_count_le_length; lia.
  - rewrite reconcile_scale_up by lia. simpl.
    destruct (Z.ltb_spec target (alive_count (workers st))); [lia |].
    rewrite spawn_workers_spec.
    repeat split; eauto using alive_count_le_length.
    + rewrite length_app. lia.
    + rewrite alive_count_app, alive_count_spawned, length_seq. lia.
Qed.

(** Every field but the pool and the log is left alone by [reconcile]. *)
Lemma reconcile_frame target st :
  let st' := snd (reconcile target st) in
  PATTERN_MODE st' = PATTERN_MODE st /\ BASE_LOAD st' = BASE_LOAD st /\
  MAX_LOAD st' = MAX_LOAD st /\ CYCLE_DURATION st' = CYCLE_DURATION st /\
  ENABLED st' = ENABLED st /\ manual_workers st' = manual_workers st /\
  current_load_level st' = current_load_level st.
Proof.
  unfold_py. simpl.
  destruct (target >? _); [| destruct (target <? _)]; simpl; repeat split.
Qed.

(** ** Worker identifiers *)

(** Within one call the identifiers go up in steps of two from the pool
    size, so they are new only against pool sizes, not against the
    identifiers handed out before. *)
Lemma reconcile_new_ids target st :
  alive_count (workers st) < target ->
  map worker_id (workers (snd (reconcile target st))) =
    map worker_id (workers st) ++
    map (fun k => Z.of_nat (length (workers st)) + 2 * Z.of_nat k)
        (seq 0 (Z.to_nat (target - alive_count (workers st)))).
Proof.
  intros H. rewrite reconcile_scale_up by assumption. simpl.
  rewrite spawn_workers_spec, map_app, map_map. f_equal.
  apply map_ext. intros k. simpl. lia.
Qed.

(** C4: the identifiers are not distinct over the run.  From an empty pool
    in [manual] mode with two workers asked for, then three (a
    [POST /config] with [workers = 3] between two rounds of the loop), the
    third worker gets the identifier [2] that the second already has. *)
Theorem worker_ids_repeat :
  let st0 := initial_state "manual" 2 50 120 true in
  let evs := [Tick (mkSample 0 0 0 0);
              PostConfig (JObj {[ "workers" := JInt 3 ]});
              Tick (mkSample 5 0 0 0)] in
  map worker_id (workers (run (fun _ => None) evs st0)) = [0; 2; 2] /\
  ~ List.NoDup (map worker_id (workers (run (fun _ => None) evs st0))).
Proof.
  assert (E : map worker_id (workers (run (fun _ => None)
            [Tick (mkSample 0 0 0 0);
             PostConfig (JObj {[ "workers" := JInt 3 ]});
             Tick (mkSample 5 0 0 0)]
            (initial_state "manual" 2 50 120 true))) = [0; 2; 2])
    by (vm_compute; reflexivity).
  cbv zeta. split; [exact E |].
  rewrite E. intros Hnd. apply List.NoDup_cons_iff in Hnd as [_ Hnd].
  apply List.NoDup_cons_iff in Hnd as [Hin _]. apply Hin. left. reflexivity.
Qed.

(** ** A disabled controller *)

Lemma manage_workers_iteration_disabled s st :
  ENABLED st = false ->
  manage_workers_iteration s st =
    (Ok tt,
     set_cpu_usage_estimate (cpu_percent s / 100)%Q
       (set_memory_usage_bytes (rss s) st)).
Proof.
  intros H. unfold manage_workers_iteration. unfold_py. rewrite H. reflexivity.
Qed.

(** C10: with [ENABLED] false a round of the loop skips the whole
    adjustment: the pool and the [active_workers] and [load_level] gauges
    stay as they were, and the memory and CPU gauges take the new
    readings. *)
Theorem disabled_iteration (s : sample) (st : state) :
  ENABLED st = false ->
  manage_workers_iteration s st =
    (Ok tt,
     set_cpu_usage_estimate (cpu_percent s / 100)%Q
       (set_memory_usage_bytes (rss s) st)) /\
  let st' := snd (manage_workers_iteration s st) in
  workers st' = workers st /\
  active_workers st' = active_workers st /\
  load_level st' = load_level st /\
  memory_usage_bytes st' = rss s /\
  cpu_usage_estimate st' = (cpu_percent s / 100)%Q.
Proof.
  intros H. rewrite manage_workers_iteration_disabled by assumption.
  simpl. repeat split.
Qed.

(** ** The [manual] pattern and the fallback *)

(** C9, as the code has it: outside the four pattern names the target is
    [BASE_LOAD] and nothing is written, provided [CYCLE_DURATION] is not
    zero (the position in the cycle is computed before the pattern is
    looked at). *)
Theorem fallback_pattern (mode : json) (t : Z) (r : Q) (st : state) :
  (forall s, In s valid_patterns -> mode <> JStr s) ->
  CYCLE_DURATION st <> 0 ->
  calculate_target_workers mode t r st = (Ok (BASE_LOAD st), st).
Proof.
  intros Hmode Hc. unfold calculate_target_workers.
  rewrite !py_eq_str_false by (apply Hmode; simpl; tauto).
  unfold bind. rewrite position_in_cycle_ok by assumption. reflexivity.
Qed.

(** The round of the loop that meets the exception logs it and adjusts
    nothing, the system gauges included. *)
Lemma iteration_zero_cycle s st :
  ENABLED st = true -> CYCLE_DURATION st = 0 ->
  py_eq_str (PATTERN_MODE st) "manual" = false ->
  manage_workers_iteration s st =
    (Ok tt, set_log (log st ++ [ManagerError ZeroDivisionError]) st).
Proof.
  intros He Hc Hm. unfold manage_workers_iteration.
  unfold try_except, bind at 1 2, gets at 1, when. rewrite He.
  unfold bind at 1 2, gets at 1, calculate_target_workers. rewrite Hm.
  unfold bind at 1. rewrite position_in_cycle_zero by assumption. reflexivity.
Qed.

(** C5: under [manual] the target is the stored [manual_workers], whatever
    the elapsed time and the rest of the configuration, and nothing is
    written ([current_load_level] included); after a [POST /config] with
    body [{"workers": 7}] in [manual] mode the next call returns 7. *)
Theorem manual_pattern :
  (forall t r st,
     calculate_target_workers (JStr "manual") t r st = (Ok (manual_workers st), st)) /\
  (forall int_of_str t r st,
     PATTERN_MODE st = JStr "manual" ->
     let st' := snd (view (update_config int_of_str (JObj {[ "workers" := JInt 7 ]})) st) in
     fst (view (update_config int_of_str (JObj {[ "workers" := JInt 7 ]})) st)
       <> InternalServerError /\
     calculate_target_workers (PATTERN_MODE st') t r st' = (Ok 7, st')).
Proof.
  split; [reflexivity |].
  intros int_of_str t r st Hm. cbv zeta.
  unfold update_config.
  replace (truthy (JObj {[ "workers" := JInt 7 ]})) with true by (vm_compute; reflexivity).
  unfold if_present, py_contains, py_getitem.
  replace (({[ "workers" := JInt 7 ]} : gmap string json) !! "pattern_mode") with (@None json)
    by (vm_compute; reflexivity).
  replace (({[ "workers" := JInt 7 ]} : gmap string json) !! "base_load") with (@None json)
    by (vm_compute; reflexivity).
  replace (({[ "workers" := JInt 7 ]} : gmap string json) !! "max_load") with (@None json)
    by (vm_compute; reflexivity).
  replace (({[ "workers" := JInt 7 ]} : gmap string json) !! "cycle_duration") with (@None json)
    by (vm_compute; reflexivity).
  replace (({[ "workers" := JInt 7 ]} : gmap string json) !! "workers") with (Some (JInt 7))
    by (vm_compute; reflexivity).
  unfold_py. simpl. rewrite Hm. split; [discriminate | reflexivity].
Qed.

(** ** [POST /pattern/<name>] *)

Lemma repr_valid_patterns :
  repr_list valid_patterns = "['wave', 'spike', 'random', 'manual']".
Proof. reflexivity. Qed.

(** C7: a name outside the four patterns gets status 400 with a message
    that lists the four, and [PATTERN_MODE] (with every other global; only
    the request counter moves) stays; a name among the four is stored in
    [PATTERN_MODE] and answered with status 200 and [success]. *)
Theorem set_pattern_validates (name : string) (st : state) :
  let resp := fst (view (set_pattern name) st) in
  let st' := snd (view (set_pattern name) st) in
  (~ In name valid_patterns ->
     resp = Json 400 (JObj {[ "error" :=
       JStr "Invalid pattern. Must be one of: ['wave', 'spike', 'random', 'manual']" ]}) /\
     PATTERN_MODE st' = PATTERN_MODE st /\
     st' = set_requests_total (requests_total st') st) /\
  (In name valid_patterns ->
     resp = Json 200 (JObj {[ "status" := JStr "success"; "pattern" := JStr name ]}) /\
     PATTERN_MODE st' = JStr name).
Proof.
  cbv zeta. unfold set_pattern, view.
  destruct (bool_decide_reflect (name ∈ valid_patterns)) as [Hin | Hnin]; simpl.
  - apply list_elem_of_In in Hin.
    split; [intros H; exfalso; exact (H Hin) |]. intros _. split; reflexivity.
  - rewrite list_elem_of_In in Hnin.
    split; [| intros H; exfalso; exact (Hnin H)]. intros _.
    unfold_py. simpl. repeat split.
Qed.

Lemma set_pattern_validates_witness :
  PATTERN_MODE (snd (view (set_pattern "burst") default_state)) = JStr "wave" /\
  PATTERN_MODE (snd (view (set_pattern "spike") default_state)) = JStr "spike".
Proof.
  split.
  - refine (proj1 (proj2 (proj1 (set_pattern_validates "burst" default_state) _))).
    simpl. intros H. repeat (destruct H as [H | H]; [discriminate H |]). exact H.
  - refine (proj2 (proj2 (set_pattern_validates "spike" default_state) _)).
    simpl. tauto.
Defined.

(** ** [POST /config] *)

Section ConfigProperties.

Variable int_of_str : string -> option Z.

Lemma data_of_obj m : (if truthy (JObj m) then JObj m else JObj ∅) = JObj m.
Proof.
  simpl. destruct (bool_decide_reflect (m = ∅)) as [-> | _]; reflexivity.
Qed.

Lemma if_present_None key m k st :
  m !! key = None -> if_present key (JObj m) k st = (Ok tt, st).
Proof. intros H. unfold_py. unfold py_contains. rewrite H. reflexivity. Qed.

Lemma if_present_Some key m k st v :
  m !! key = Some v -> if_present key (JObj m) k st = k v st.
Proof.
  intros H. unfold_py. unfold py_contains, py_getitem. rewrite H. reflexivity.
Qed.

(** C8: for a JSON object as body.  A field that is absent keeps its
    value, whether the request succeeds or not.  The request succeeds
    exactly when every numeric field that is present goes through [int];
    it then answers 200 and each present field holds the value sent
    ([pattern_mode] as it came, the others coerced).  Otherwise the
    coercion error leaves the view and the answer is a 500. *)
Theorem update_config_partial (m : gmap string json) (st : state) :
  let out := view (update_config int_of_str (JObj m)) st in
  let st' := snd out in
  ((m !! "pattern_mode" = None -> PATTERN_MODE st' = PATTERN_MODE st) /\
   (m !! "base_load" = None -> BASE_LOAD st' = BASE_LOAD st) /\
   (m !! "max_load" = None -> MAX_LOAD st' = MAX_LOAD st) /\
   (m !! "cycle_duration" = None -> CYCLE_DURATION st' = CYCLE_DURATION st) /\
   (m !! "workers" = None -> manual_workers st' = manual_workers st)) /\
  ((forall key v, In key numeric_fields -> m !! key = Some v ->
      exists n, py_int int_of_str v = Ok n) ->
   (exists body, fst out = Json 200 body) /\
   (forall v, m !! "pattern_mode" = Some v -> PATTERN_MODE st' = v) /\
   (forall v, m !! "base_load" = Some v -> py_int int_of_str v = Ok (BASE_LOAD st')) /\
   (forall v, m !! "max_load" = Some v -> py_int int_of_str v = Ok (MAX_LOAD st')) /\
   (forall v, m !! "cycle_duration" = Some v ->
      py_int int_of_str v = Ok (CYCLE_DURATION st')) /\
   (forall v, m !! "workers" = Some v -> py_int int_of_str v = Ok (manual_workers st'))) /\
  ((exists key v e, In key numeric_fields /\ m !! key = Some v /\
      py_int int_of_str v = Raise e) ->
   fst out = InternalServerError).
Proof.
  cbv zeta. unfold update_config, view. rewrite data_of_obj.
  unfold if_present, py_contains, py_getitem.
  destruct (m !! "pattern_mode") as [v0 |] eqn:E0;
    destruct (m !! "base_load") as [v1 |] eqn:E1;
    destruct (m !! "max_load") as [v2 |] eqn:E2;
    destruct (m !! "cycle_duration") as [v3 |] eqn:E3;
    destruct (m !! "workers") as [v4 |] eqn:E4.
  all: unfold_py; simpl.
  all: repeat match goal with
         | |- context [py_int _ ?v] =>
             destruct (py_int int_of_str v) eqn:?; simpl
         end.
  all: split; [repeat split; intros; congruence |].
  all: split;
    [ intros H;
      first
        [ split; [eexists; reflexivity |];
          repeat split; intros v [= <-]; first [assumption | reflexivity]
        | exfalso;
          match goal with
          | R : py_int _ ?v = Raise _, L : _ !! ?key = Some ?v |- _ =>
              destruct (H key v ltac:(simpl; tauto) L) as [n Hn]; congruence
          end ]
    | intros (key & v & err & Hin & Hk & He);
      first
        [ reflexivity
        | exfalso; simpl in Hin;
          repeat (destruct Hin as [<- | Hin]; [congruence |]); exact Hin ] ].
Qed.

End ConfigProperties.

Lemma update_config_partial_witness :
  let st' := snd (view (update_config (fun _ => None)
                          (JObj {[ "max_load" := JInt 80 ]})) default_state) in
  BASE_LOAD st' = 10 /\ py_int (fun _ => None) (JInt 80) = Ok (MAX_LOAD st').
Proof.
  pose proof (update_config_partial (fun _ => None)
                {[ "max_load" := JInt 80 ]} default_state) as [HA [HB _]].
  cbv zeta in *. split.
  - apply HA. vm_compute. reflexivity.
  - apply HB.
    + intros key v Hin Hk. simpl in Hin.
      destruct Hin as [<- | [<- | [<- | [<- | []]]]];
        vm_compute in Hk; inversion Hk; eexists; reflexivity.
    + vm_compute. reflexivity.
Defined.

(** A body that is false in Python's sense ([null], [false], [0], an
    empty string, list or object) is handled as the empty object. *)
Lemma update_config_falsy int_of_str body :
  truthy body = false ->
  update_config int_of_str body = update_config int_of_str (JObj ∅).
Proof. intros H. unfold update_config. rewrite H. reflexivity. Qed.

(** A failed coercion does not undo the fields written before it: with
    [pattern_mode] and a [base_load] that is no number, the answer is a
    500 and [PATTERN_MODE] has changed all the same; [workers], which
    comes after the failure, is not stored. *)
Lemma update_config_failure_keeps_earlier_writes :
  let body := JObj {[ "pattern_mode" := JStr "spike"; "base_load" := JNull;
                      "workers" := JInt 7 ]} in
  let out := view (update_config (fun _ => None) body) default_state in
  fst out = InternalServerError /\
  PATTERN_MODE (snd out) = JStr "spike" /\
  manual_workers (snd out) = 10.
Proof. vm_compute. repeat split. Qed.

(** ** The [spike] pattern *)

Lemma calculate_target_workers_spike t r st :
  calculate_target_workers (JStr "spike") t r st =
  bind (position_in_cycle t) (fun position =>
    if fltb position (float_lit 0.1)
       || (fleb (float_lit 0.5) position && fltb position (float_lit 0.6))
    then bind (modify (set_current_load_level 100)) (fun _ => gets MAX_LOAD)
    else
      bind (modify (set_current_load_level 20)) (fun _ =>
      bind (gets BASE_LOAD) (fun base =>
      bind (gets MAX_LOAD) (fun max =>
      bind (lift (float_of_int (max - base))) (fun span =>
      bind (lift (int_of_float (fmul span (float_lit 0.2)))) (fun fifth =>
      ret (base + fifth))))))) st.
Proof. reflexivity. Qed.

(** The three literals of the window and the factor of the low plateau,
    as binary64 has them. *)
Lemma float_lit_tenth :
  float_lit 0.1 = Fin (3602879701896397 # 36028797018963968).
Proof. vm_compute. reflexivity. Qed.

Lemma float_lit_half : float_lit 0.5 = Fin (1 # 2).
Proof. vm_compute. reflexivity. Qed.

Lemma float_lit_six_tenths :
  float_lit 0.6 = Fin (5404319552844595 # 9007199254740992).
Proof. vm_compute. reflexivity. Qed.

Lemma float_lit_fifth :
  float_lit 0.2 = Fin (3602879701896397 # 18014398509481984).
Proof. vm_compute. reflexivity. Qed.

#[local] Open Scope Q_scope.

Lemma inject_Z_nonzero c : c <> 0%Z -> ~ inject_Z c == 0.
Proof.
  intros H E. apply H. apply inject_Z_injective. exact E.
Qed.

(** The exact position is a fraction over [|CYCLE_DURATION|]. *)
Lemma position_fraction t c :
  c <> 0%Z ->
  exists K, (0 <= K < Z.abs c)%Z /\
    inject_Z (t mod c) / inject_Z c * inject_Z (Z.abs c) == inject_Z K.
Proof.
  intros Hc. destruct (Z_lt_le_dec 0 c) as [P | N].
  - exists (t mod c)%Z. split.
    + pose proof (Z.mod_pos_bound t c P). lia.
    + rewrite Z.abs_eq by lia. field. apply inject_Z_nonzero, Hc.
  - exists (- (t mod c))%Z. split.
    + pose proof (Z.mod_neg_bound t c ltac:(lia)). lia.
    + rewrite Z.abs_neq by lia. rewrite !inject_Z_opp. field.
      apply inject_Z_nonzero, Hc.
Qed.

(** Below a threshold [a/b], a fraction over at most [2^50] stays away
    from it by [1 / (b * 2^50)]. *)
Lemma fraction_gap (p : Q) (K C a b : Z) :
  (0 < C <= 2 ^ 50)%Z -> (0 < b)%Z ->
  p * inject_Z C == inject_Z K ->
  p < inject_Z a / inject_Z b ->
  p <= inject_Z a / inject_Z b - 1 / (inject_Z b * 2 ^ 50).
Proof.
  intros HC Hb E H.
  assert (PC : 0 < inject_Z C) by (change 0 with (inject_Z 0); rewrite <- Zlt_Qlt; lia).
  assert (Pb : 0 < inject_Z b) by (change 0 with (inject_Z 0); rewrite <- Zlt_Qlt; lia).
  assert (UC : inject_Z C <= 2 ^ 50).
  { rewrite <- pow2_Z by lia. rewrite <- Zle_Qle. lia. }
  pose proof (pow2_pos 50) as P50.
  assert (H1 : inject_Z (K * b) < inject_Z (a * C)).
  { rewrite !inject_Z_mult, <- E.
    apply (Qmult_lt_r _ _ (inject_Z C * inject_Z b)) in H;
      [| apply Qmult_lt_0_compat; assumption].
    assert (X : inject_Z a / inject_Z b * (inject_Z C * inject_Z b)
                == inject_Z a * inject_Z C) by (field; lra).
    rewrite X in H. lra. }
  rewrite <- Zlt_Qlt in H1.
  assert (H2 : inject_Z (K * b + 1) <= inject_Z (a * C)) by (rewrite <- Zle_Qle; lia).
  rewrite inject_Z_plus, !inject_Z_mult, <- E in H2. change (inject_Z 1) with 1 in H2.
  apply (Qmult_le_r _ _ (inject_Z C * inject_Z b)); [apply Qmult_lt_0_compat; assumption |].
  assert (X : (inject_Z a / inject_Z b - 1 / (inject_Z b * 2 ^ 50)) * (inject_Z C * inject_Z b)
              == inject_Z a * inject_Z C - inject_Z C / 2 ^ 50) by (field; try split; lra).
  rewrite X.
  assert (Y : inject_Z C / 2 ^ 50 <= 1) by (apply Qle_shift_div_r; lra).
  lra.
Qed.

Section SpikeWindow.

Variables (t c : Z).
Hypothesis Hc : c <> 0%Z.
Hypothesis Hsmall : (Z.abs c <= 2 ^ 50)%Z.

Local Notation p := (inject_Z (t mod c) / inject_Z c).

Lemma position_gap (a b : Z) :
  (0 < b)%Z -> p < inject_Z a / inject_Z b ->
  p <= inject_Z a / inject_Z b - 1 / (inject_Z b * 2 ^ 50).
Proof using Hc Hsmall.
  intros Hb H. destruct (position_fraction t c Hc) as (K & HK & E).
  apply (fraction_gap p K (Z.abs c) a b); [lia | assumption | exact E | exact H].
Qed.

(** For a cycle of at most [2^50] seconds the three tests on the float
    decide as they would on the exact position. *)
Lemma test_tenth :
  Qltb (Qred (round_val p)) (3602879701896397 # 36028797018963968) = true <-> p < 1 # 10.
Proof using Hc Hsmall.
  rewrite Qltb_lt, Qred_correct. split.
  - intros H. apply Qnot_le_lt. intros C.
    apply round_val_le in C.
    assert (V : round_val (1 # 10) == 3602879701896397 # 36028797018963968)
      by (vm_compute; reflexivity).
    lra.
  - intros H. pose proof (position_gap 1 10 ltac:(lia) H) as G.
    assert (G' : p <= 7205759403792793 # 72057594037927936).
    { eapply Qle_trans; [exact G |]. vm_compute. discriminate. }
    apply round_val_le in G'.
    assert (V : round_val (7205759403792793 # 72057594037927936)
                == 7205759403792793 # 72057594037927936) by (vm_compute; reflexivity).
    rewrite V in G'. eapply Qle_lt_trans; [exact G' |]. reflexivity.
Qed.

Lemma test_half :
  Qle_bool (1 # 2) (Qred (round_val p)) = true <-> (1 # 2) <= p.
Proof using Hc Hsmall.
  rewrite Qle_bool_iff, Qred_correct. split.
  - intros H. apply Qnot_lt_le. intros C.
    pose proof (position_gap 1 2 ltac:(lia) C) as G.
    assert (G' : p <= 9007199254740991 # 18014398509481984).
    { eapply Qle_trans; [exact G |]. vm_compute. discriminate. }
    apply round_val_le in G'.
    assert (V : round_val (9007199254740991 # 18014398509481984)
                == 9007199254740991 # 18014398509481984) by (vm_compute; reflexivity).
    rewrite V in G'.
    assert ((9007199254740991 # 18014398509481984) < 1 # 2) by reflexivity. lra.
  - intros H. apply round_val_le in H.
    assert (V : round_val (1 # 2) == 1 # 2) by (vm_compute; reflexivity).
    lra.
Qed.

Lemma test_six_tenths :
  Qltb (Qred (round_val p)) (5404319552844595 # 9007199254740992) = true <-> p < 6 # 10.
Proof using Hc Hsmall.
  rewrite Qltb_lt, Qred_correct. split.
  - intros H. apply Qnot_le_lt. intros C.
    apply round_val_le in C.
    assert (V : round_val (6 # 10) == 5404319552844595 # 9007199254740992)
      by (vm_compute; reflexivity).
    lra.
  - intros H.
    assert (H' : p < inject_Z 3 / inject_Z 5).
    { eapply Qlt_le_trans; [exact H |]. vm_compute. discriminate. }
    pose proof (position_gap 3 5 ltac:(lia) H') as G.
    assert (G' : p <= 2702159776422297 # 4503599627370496).
    { eapply Qle_trans; [exact G |]. vm_compute. discriminate. }
    apply round_val_le in G'.
    assert (V : round_val (2702159776422297 # 4503599627370496)
                == 2702159776422297 # 4503599627370496) by (vm_compute; reflexivity).
    rewrite V in G'. eapply Qle_lt_trans; [exact G' |]. reflexivity.
Qed.

Lemma in_spike_window_test :
  Qltb (Qred (round_val p)) (3602879701896397 # 36028797018963968)
  || (Qle_bool (1 # 2) (Qred (round_val p))
      && Qltb (Qred (round_val p)) (5404319552844595 # 9007199254740992)) = true
  <-> in_spike_window p.
Proof using Hc Hsmall.
  unfold in_spike_window.
  rewrite orb_true_iff, andb_true_iff, test_tenth, test_half, test_six_tenths.
  reflexivity.
Qed.

End SpikeWindow.

(** A fifth, truncated: [int(n * 0.2)] in binary64 is the quotient of [n]
    by five for an [n] of at most [2^52] in size. *)
Lemma fifth_bounds (d : Z) :
  (0 <= d <= 2 ^ 52)%Z ->
  inject_Z (d / 5) <= inject_Z d * (3602879701896397 # 18014398509481984) /\
  inject_Z d * (3602879701896397 # 18014398509481984) <= inject_Z (8 * (d / 5) + 7) * 2 ^ (-3).
Proof.
  intros Hd. pose proof (Z.div_mod d 5 ltac:(lia)) as E.
  pose proof (Z.mod_pos_bound d 5 ltac:(lia)) as Hr.
  set (q := (d / 5)%Z) in *. set (r := (d mod 5)%Z) in *.
  assert (Ed : inject_Z d == 5 * inject_Z q + inject_Z r).
  { rewrite E, inject_Z_plus, inject_Z_mult. reflexivity. }
  assert (Hr0 : 0 <= inject_Z r) by (change 0 with (inject_Z 0); rewrite <- Zle_Qle; lia).
  assert (Hr4 : inject_Z r <= 4) by (change 4 with (inject_Z 4); rewrite <- Zle_Qle; lia).
  assert (Hq0 : 0 <= inject_Z q).
  { change 0 with (inject_Z 0). rewrite <- Zle_Qle. apply Z.div_pos; lia. }
  assert (Hd52 : inject_Z d <= 4503599627370496).
  { change 4503599627370496 with (inject_Z (2 ^ 52)). rewrite <- Zle_Qle. lia. }
  rewrite inject_Z_plus, inject_Z_mult.
  change (inject_Z 8) with 8. change (inject_Z 7) with 7. change (2 ^ (-3)) with (1 # 8).
  split; lra.
Qed.

Lemma fifth_nonneg (d : Z) :
  (0 <= d <= 2 ^ 52)%Z ->
  round64 (inject_Z d * (3602879701896397 # 18014398509481984))
    = Fin (Qred (round_val (inject_Z d * (3602879701896397 # 18014398509481984)))) /\
  int_of_rat (round_val (inject_Z d * (3602879701896397 # 18014398509481984))) = (d / 5)%Z.
Proof.
  intros Hd. destruct (fifth_bounds d Hd) as [L U].
  assert (Hq : (0 <= d / 5 <= 2 ^ 50 - 1)%Z).
  { split; [apply Z.div_pos; lia |]. apply Z.div_le_upper_bound; lia. }
  set (x := inject_Z d * (3602879701896397 # 18014398509481984)) in *.
  pose proof (round_val_le _ _ L) as A. pose proof (round_val_le _ _ U) as B.
  rewrite round_val_int in A by lia.
  rewrite round_val_exact in B by lia.
  assert (B' : round_val x < inject_Z (d / 5 + 1)).
  { rewrite inject_Z_plus, inject_Z_mult in B. rewrite inject_Z_plus.
    change (inject_Z 8) with 8 in B. change (inject_Z 7) with 7 in B.
    change (2 ^ (-3)) with (1 # 8) in B. change (inject_Z 1) with 1. lra. }
  split.
  - apply round64_small. apply Qabs_Qlt_condition.
    assert (0 <= inject_Z (d / 5)) by (change 0 with (inject_Z 0); rewrite <- Zle_Qle; lia).
    assert (inject_Z (d / 5 + 1) <= inject_Z (2 ^ 53)) by (rewrite <- Zle_Qle; lia).
    pose proof pow2_53_1024. pose proof (pow2_pos 1024). lra.
  - apply int_of_rat_unit; [lia | exact A | exact B'].
Qed.

Lemma fifth_truncated (d : Z) :
  (Z.abs d <= 2 ^ 52)%Z ->
  int_of_float (fmul (Fin (inject_Z d)) (float_lit 0.2)) = Ok (d ÷ 5)%Z.
Proof.
  intros Hd. rewrite float_lit_fifth. unfold fmul.
  destruct (Z_le_gt_dec 0 d) as [P | N].
  - destruct (fifth_nonneg d ltac:(lia)) as [E1 E2].
    rewrite E1. unfold int_of_float.
    rewrite (int_of_rat_comp _ _ (Qred_correct _)), E2.
    rewrite Z.quot_div_nonneg by lia. reflexivity.
  - destruct (fifth_nonneg (- d) ltac:(lia)) as [E1 E2].
    set (v := 3602879701896397 # 18014398509481984) in *.
    assert (X : inject_Z d * v == - (inject_Z (- d) * v)) by (rewrite inject_Z_opp; ring).
    assert (NZ : ~ inject_Z (- d) * v == 0).
    { assert (0 < inject_Z (- d)) by (change 0 with (inject_Z 0); rewrite <- Zlt_Qlt; lia).
      assert (0 < v) by reflexivity.
      assert (0 < inject_Z (- d) * v) by (apply Qmult_lt_0_compat; assumption). lra. }
    assert (V : round_val (inject_Z d * v) == - round_val (inject_Z (- d) * v)).
    { rewrite (round_val_comp _ _ X).
      rewrite (round_val_nonzero (- (inject_Z (- d) * v))) by lra.
      rewrite (round_val_nonzero _ NZ). apply round_fin_opp, NZ. }
    apply round64_Fin in E1. destruct E1 as [_ Bd].
    rewrite round64_small.
    + unfold int_of_float. rewrite (int_of_rat_comp _ _ (Qred_correct _)).
      rewrite (int_of_rat_comp _ _ V). f_equal.
      assert (Hq : (0 <= - d / 5)%Z) by (apply Z.div_pos; lia).
      assert (0 <= round_val (inject_Z (- d) * v)).
      { rewrite <- round_val_0. apply round_val_le.
        assert (0 < inject_Z (- d)) by (change 0 with (inject_Z 0); rewrite <- Zlt_Qlt; lia).
        assert (0 < v) by reflexivity.
        apply Qlt_le_weak, Qmult_lt_0_compat; assumption. }
      rewrite int_of_rat_nonpos by lra.
      rewrite (Qfloor_comp _ (round_val (inject_Z (- d) * v))) by ring.
      rewrite <- int_of_rat_nonneg by assumption. rewrite E2.
      rewrite <- (Z.quot_div_nonneg (- d) 5) by lia.
      rewrite Z.quot_opp_l by lia. lia.
    + rewrite V, Qabs_opp. exact Bd.
Qed.

#[local] Close Scope Q_scope.

(** C2, as the code has it, for a cycle of at most [2^50] seconds and
    loads at most [2^52] apart: the position is in [[0, 1)]; inside the
    spike window the target is [MAX_LOAD] and the load level 100, outside
    it the load level is 20 and the target is [BASE_LOAD] plus a fifth of
    [MAX_LOAD - BASE_LOAD] with the fraction cut off (toward zero), not
    rounded.  Within these bounds the comparisons and the product that the
    code does in binary64 come out as on the exact numbers. *)
Theorem spike_pattern (t : Z) (r : Q) (st : state) :
  CYCLE_DURATION st <> 0 ->
  Z.abs (CYCLE_DURATION st) <= 2 ^ 50 ->
  Z.abs (MAX_LOAD st - BASE_LOAD st) <= 2 ^ 52 ->
  let p := (inject_Z (t mod CYCLE_DURATION st) / inject_Z (CYCLE_DURATION st))%Q in
  let out := calculate_target_workers (JStr "spike") t r st in
  (0 <= p < 1)%Q /\
  (in_spike_window p ->
     out = (Ok (MAX_LOAD st), set_current_load_level 100 st)) /\
  (~ in_spike_window p ->
     out = (Ok (BASE_LOAD st + (MAX_LOAD st - BASE_LOAD st) ÷ 5),
            set_current_load_level 20 st)) /\
  (current_load_level (snd out) = 100 <-> in_spike_window p).
Proof.
  intros Hc Hc50 Hd p out.
  pose proof (in_spike_window_test t _ Hc Hc50) as W. fold p in W.
  set (test := Qltb (Qred (round_val p)) (3602879701896397 # 36028797018963968)
     || (Qle_bool (1 # 2) (Qred (round_val p))
         && Qltb (Qred (round_val p)) (5404319552844595 # 9007199254740992))) in *.
  assert (E : out =
    if test
    then (Ok (MAX_LOAD st), set_current_load_level 100 st)
    else (Ok (BASE_LOAD st + (MAX_LOAD st - BASE_LOAD st) ÷ 5),
          set_current_load_level 20 st)).
  { subst out. rewrite calculate_target_workers_spike.
    unfold bind at 1. rewrite position_in_cycle_ok by assumption.
    rewrite float_position_ok by assumption. unfold cycle_position. fold p.
    rewrite float_lit_tenth, float_lit_half, float_lit_six_tenths.
    unfold fltb, fleb. fold test.
    destruct test; [reflexivity |].
    unfold bind, modify, gets, lift, ret. simpl.
    unfold float_of_int. rewrite round64_int by lia.
    rewrite fifth_truncated by assumption. reflexivity. }
  split; [apply position_range; assumption |].
  split; [| split].
  - intros Hw. apply W in Hw. rewrite E, Hw. reflexivity.
  - intros Hw. rewrite E.
    destruct test; [exfalso; apply Hw, W; reflexivity | reflexivity].
  - rewrite E.
    destruct test; simpl.
    + split; [intros _; apply W; reflexivity | reflexivity].
    + split; [discriminate |]. intros Hw. apply W in Hw. discriminate.
Qed.

(** ** From the load factor to the level and the target *)

#[local] Open Scope Q_scope.

Lemma inject_Z_le a b : (a <= b)%Z -> inject_Z a <= inject_Z b.
Proof. intros H. rewrite <- Zle_Qle. exact H. Qed.

Lemma factor_level_comp F F' : F == F' -> factor_level F = factor_level F'.
Proof.
  intros E. unfold factor_level. apply int_of_rat_comp, round_val_comp.
  rewrite E. reflexivity.
Qed.

Lemma factor_target_comp B Mx F F' :
  F == F' -> factor_target B Mx F = factor_target B Mx F'.
Proof.
  intros E. unfold factor_target. apply int_of_rat_comp, round_val_comp.
  rewrite (round_val_comp (inject_Z (Mx - B) * F) (inject_Z (Mx - B) * F'))
    by (rewrite E; reflexivity).
  reflexivity.
Qed.

Lemma percent_between F :
  0 <= F -> F <= 1 ->
  inject_Z 0 <= F * 100 /\ F * 100 <= inject_Z 100.
Proof.
  intros L U. change (inject_Z 0) with 0. change (inject_Z 100) with 100. split; lra.
Qed.

Lemma factor_level_range F : 0 <= F -> F <= 1 -> (0 <= factor_level F <= 100)%Z.
Proof.
  intros L U. unfold factor_level. destruct (percent_between F L U) as [A B].
  destruct (round_val_between 0 100 (F * 100) ltac:(vm_compute; discriminate)
              ltac:(vm_compute; discriminate) A B) as [A' B'].
  apply int_of_rat_between; assumption.
Qed.

(** The product with the load factor lies between zero and the
    difference of the loads, and the sum between the two loads. *)
Lemma span_between (d : Z) F :
  0 <= F -> F <= 1 ->
  inject_Z (Z.min 0 d) <= inject_Z d * F /\ inject_Z d * F <= inject_Z (Z.max 0 d).
Proof.
  intros L U. destruct (Z_le_gt_dec 0 d) as [P | N].
  - rewrite Z.min_l, Z.max_r by lia. change (inject_Z 0) with 0.
    assert (0 <= inject_Z d) by (apply (inject_Z_le 0), P).
    assert (inject_Z d * F <= inject_Z d * 1) by (apply Qmult_le_compat_nonneg; lra).
    assert (0 <= inject_Z d * F) by (apply Qmult_le_0_compat; lra).
    split; lra.
  - rewrite Z.min_r, Z.max_l by lia. change (inject_Z 0) with 0.
    assert (Hd : 0 <= - inject_Z d).
    { rewrite <- inject_Z_opp. apply (inject_Z_le 0). lia. }
    assert ((- inject_Z d) * F <= (- inject_Z d) * 1) by (apply Qmult_le_compat_nonneg; lra).
    assert (0 <= (- inject_Z d) * F) by (apply Qmult_le_0_compat; lra).
    split; lra.
Qed.

Lemma sum_between (B Mx : Z) F :
  (Z.abs (Mx - B) <= 2 ^ 53)%Z ->
  0 <= F -> F <= 1 ->
  inject_Z (Z.min B Mx) <= inject_Z B + round_val (inject_Z (Mx - B) * F) /\
  inject_Z B + round_val (inject_Z (Mx - B) * F) <= inject_Z (Z.max B Mx).
Proof.
  intros Hd L U. destruct (span_between (Mx - B) F L U) as [A C].
  destruct (round_val_between (Z.min 0 (Mx - B)) (Z.max 0 (Mx - B)) _
              ltac:(lia) ltac:(lia) A C) as [A' C'].
  assert (E1 : inject_Z (Z.min B Mx) == inject_Z B + inject_Z (Z.min 0 (Mx - B))).
  { rewrite <- inject_Z_plus. replace (B + Z.min 0 (Mx - B))%Z with (Z.min B Mx) by lia.
    reflexivity. }
  assert (E2 : inject_Z (Z.max B Mx) == inject_Z B + inject_Z (Z.max 0 (Mx - B))).
  { rewrite <- inject_Z_plus. replace (B + Z.max 0 (Mx - B))%Z with (Z.max B Mx) by lia.
    reflexivity. }
  rewrite E1, E2. split; lra.
Qed.

(** With loads that binary64 holds exactly the target is between them. *)
Lemma factor_target_range B Mx F :
  (Z.abs B <= 2 ^ 53)%Z -> (Z.abs Mx <= 2 ^ 53)%Z -> (Z.abs (Mx - B) <= 2 ^ 53)%Z ->
  0 <= F -> F <= 1 ->
  (Z.min B Mx <= factor_target B Mx F <= Z.max B Mx)%Z.
Proof.
  intros HB HM Hd L U. unfold factor_target.
  destruct (sum_between B Mx F Hd L U) as [A C].
  destruct (round_val_between (Z.min B Mx) (Z.max B Mx) _
              ltac:(lia) ltac:(lia) A C) as [A' C'].
  apply int_of_rat_between; assumption.
Qed.

(** The level and the target grow with the load factor. *)
Lemma factor_level_le F1 F2 : F1 <= F2 -> (factor_level F1 <= factor_level F2)%Z.
Proof.
  intros H. unfold factor_level. apply int_of_rat_le, round_val_le. lra.
Qed.


Lemma half_between x : 0 <= x -> x <= 2 -> 0 <= x / 2 /\ x / 2 <= 1.
Proof.
  intros L U. split; [apply Qle_shift_div_l | apply Qle_shift_div_r]; lra.
Qed.


(** The load factor of [wave] is in [[0, 1]] and grows with the sine. *)
Lemma wave_factor_range s : -1 <= s -> s <= 1 -> 0 <= wave_factor s /\ wave_factor s <= 1.
Proof.
  intros L U. unfold wave_factor.
  destruct (round_val_between 0 2 (s + 1) ltac:(vm_compute; discriminate)
              ltac:(vm_compute; discriminate)) as [A B].
  { change (inject_Z 0) with 0. lra. }
  { change (inject_Z 2) with 2. lra. }
  change (inject_Z 0) with 0 in A. change (inject_Z 2) with 2 in B.
  destruct (half_between _ A B) as [A1 B1].
  destruct (round_val_between 0 1 (round_val (s + 1) / 2) ltac:(vm_compute; discriminate)
              ltac:(vm_compute; discriminate) A1 B1) as [A' B'].
  split; assumption.
Qed.


(** *** The code on finite floats *)

Lemma fmul_finite x y (lo hi : Z) :
  (Z.abs lo <= 2 ^ 53)%Z -> (Z.abs hi <= 2 ^ 53)%Z ->
  inject_Z lo <= x * y -> x * y <= inject_Z hi ->
  fmul (Fin x) (Fin y) = Fin (Qred (round_val (x * y))).
Proof. intros. unfold fmul. apply (round64_finite _ lo hi); assumption. Qed.

Lemma fadd_finite x y (lo hi : Z) :
  (Z.abs lo <= 2 ^ 53)%Z -> (Z.abs hi <= 2 ^ 53)%Z ->
  inject_Z lo <= x + y -> x + y <= inject_Z hi ->
  fadd (Fin x) (Fin y) = Fin (Qred (round_val (x + y))).
Proof. intros. unfold fadd. apply (round64_finite _ lo hi); assumption. Qed.

Lemma float_of_int_exact n :
  (Z.abs n <= 2 ^ 53)%Z -> float_of_int n = Ok (Fin (inject_Z n)).
Proof. intros H. unfold float_of_int. rewrite round64_int by assumption. reflexivity. Qed.

Lemma scaled_target_exact F st :
  0 <= F -> F <= 1 -> exact_loads st ->
  scaled_target (Fin F) st = (Ok (factor_target (BASE_LOAD st) (MAX_LOAD st) F), st).
Proof.
  intros L U (HB & HM & Hd). unfold scaled_target, bind, gets, lift.
  rewrite !float_of_int_exact by assumption.
  destruct (span_between (MAX_LOAD st - BASE_LOAD st) F L U) as [A C].
  rewrite (fmul_finite _ _ (Z.min 0 (MAX_LOAD st - BASE_LOAD st))
             (Z.max 0 (MAX_LOAD st - BASE_LOAD st)) ltac:(lia) ltac:(lia) A C).
  destruct (sum_between (BASE_LOAD st) (MAX_LOAD st) F Hd L U) as [A' C'].
  assert (E : inject_Z (BASE_LOAD st)
              + Qred (round_val (inject_Z (MAX_LOAD st - BASE_LOAD st) * F))
              == inject_Z (BASE_LOAD st)
              + round_val (inject_Z (MAX_LOAD st - BASE_LOAD st) * F)).
  { rewrite Qred_correct. reflexivity. }
  rewrite (fadd_finite _ _ (Z.min (BASE_LOAD st) (MAX_LOAD st))
             (Z.max (BASE_LOAD st) (MAX_LOAD st))) by (try lia; rewrite E; assumption).
  unfold int_of_float, factor_target. do 2 f_equal.
  rewrite (int_of_rat_comp _ _ (Qred_correct _)).
  apply int_of_rat_comp, round_val_comp, E.
Qed.

Lemma load_tail_exact F st :
  0 <= F -> F <= 1 -> exact_loads st ->
  load_tail (Fin F) st =
    (Ok (factor_target (BASE_LOAD st) (MAX_LOAD st) F),
     set_current_load_level (factor_level F) st).
Proof.
  intros L U H. unfold load_tail.
  destruct (percent_between F L U) as [A B].
  rewrite (fmul_finite _ _ 0 100 ltac:(vm_compute; discriminate)
             ltac:(vm_compute; discriminate) A B).
  unfold int_of_float, bind at 1, lift at 1, bind at 1, modify.
  rewrite (int_of_rat_comp _ _ (Qred_correct _)). fold (factor_level F).
  rewrite (scaled_target_exact F (set_current_load_level (factor_level F) st) L U H).
  reflexivity.
Qed.

(** The load factor of [wave] as the code computes it from a sine. *)
Lemma load_factor_code s :
  -1 <= s -> s <= 1 ->
  exists F, fdiv (fadd (Fin s) (Fin 1)) (Fin 2) = Ok (Fin F) /\ F == wave_factor s.
Proof.
  intros L U.
  destruct (round_val_between 0 2 (s + 1) ltac:(vm_compute; discriminate)
              ltac:(vm_compute; discriminate)) as [A B].
  { change (inject_Z 0) with 0. lra. }
  { change (inject_Z 2) with 2. lra. }
  change (inject_Z 0) with 0 in A. change (inject_Z 2) with 2 in B.
  assert (S0 : inject_Z 0 <= s + 1) by (change (inject_Z 0) with 0; lra).
  assert (S2 : s + 1 <= inject_Z 2) by (change (inject_Z 2) with 2; lra).
  rewrite (fadd_finite s 1 0 2 ltac:(vm_compute; discriminate)
             ltac:(vm_compute; discriminate) S0 S2).
  unfold fdiv. change (Qeq_bool 2 0) with false.
  assert (E : Qred (round_val (s + 1)) / 2 == round_val (s + 1) / 2).
  { rewrite Qred_correct. reflexivity. }
  destruct (half_between _ A B) as [A1 B1].
  rewrite <- E in A1, B1.
  rewrite (round64_finite _ 0 1 ltac:(vm_compute; discriminate)
             ltac:(vm_compute; discriminate) A1 B1).
  eexists. split; [reflexivity |]. rewrite Qred_correct. apply round_val_comp, E.
Qed.

#[local] Close Scope Q_scope.

(** ** The [wave] pattern *)

Lemma calculate_target_workers_wave t r st :
  calculate_target_workers (JStr "wave") t r st =
  bind (position_in_cycle t) (fun position =>
    bind (lift (math_sin (fmul (fmul position (Fin 2)) math_pi))) (fun s =>
    bind (lift (fdiv (fadd s (Fin 1)) (Fin 2))) load_tail)) st.
Proof. reflexivity. Qed.

Lemma calculate_target_workers_random t r st :
  calculate_target_workers (JStr "random") t r st =
  bind (position_in_cycle t) (fun _ => load_tail (Fin r)) st.
Proof. reflexivity. Qed.

Lemma math_pi_value : math_pi = Fin (884279719003555 # 281474976710656).
Proof. vm_compute. reflexivity. Qed.

#[local] Open Scope Q_scope.

(** The argument of the sine is a finite float, between zero and a full
    turn. *)
Lemma wave_angle_ok t st :
  CYCLE_DURATION st <> 0%Z ->
  fmul (fmul (float_position st t) (Fin 2)) math_pi = Fin (wave_angle st t) /\
  wave_angle st t == angle_of (cycle_position st t).
Proof.
  intros Hc. unfold wave_angle, angle_of.
  rewrite float_position_ok by assumption.
  pose proof (round_val_position t st Hc) as [P0 P1].
  set (p := cycle_position st t) in *.
  assert (EP : Qred (round_val p) * 2 == round_val p * 2)
    by (rewrite Qred_correct; reflexivity).
  assert (A0 : inject_Z 0 <= Qred (round_val p) * 2)
    by (rewrite EP; change (inject_Z 0) with 0; lra).
  assert (A2 : Qred (round_val p) * 2 <= inject_Z 2)
    by (rewrite EP; change (inject_Z 2) with 2; lra).
  rewrite (fmul_finite _ _ 0 2 ltac:(vm_compute; discriminate)
             ltac:(vm_compute; discriminate) A0 A2).
  destruct (round_val_between 0 2 _ ltac:(vm_compute; discriminate)
              ltac:(vm_compute; discriminate) A0 A2) as [X0 X2].
  change (inject_Z 0) with 0 in X0. change (inject_Z 2) with 2 in X2.
  rewrite math_pi_value. cbn [float_value].
  set (x := round_val (Qred (round_val p) * 2)) in *.
  assert (EX : Qred x * (884279719003555 # 281474976710656)
               == x * (884279719003555 # 281474976710656))
    by (rewrite Qred_correct; reflexivity).
  assert (B0 : inject_Z 0 <= Qred x * (884279719003555 # 281474976710656))
    by (rewrite EX; change (inject_Z 0) with 0; lra).
  assert (B8 : Qred x * (884279719003555 # 281474976710656) <= inject_Z 8)
    by (rewrite EX; change (inject_Z 8) with 8; lra).
  rewrite (fmul_finite _ _ 0 8 ltac:(vm_compute; discriminate)
             ltac:(vm_compute; discriminate) B0 B8).
  cbn [float_value]. split; [reflexivity |].
  rewrite Qred_correct. apply round_val_comp. rewrite EX. unfold x.
  rewrite (round_val_comp _ _ EP). reflexivity.
Qed.






(** The outcome of the [wave] branch for a nonzero [CYCLE_DURATION]: the
    level is stored, and the conversions of the loads decide the rest. *)
Lemma scaled_target_pure lf st :
  scaled_target lf st = (scaled_result (BASE_LOAD st) (MAX_LOAD st) lf, st).
Proof.
  unfold scaled_target, scaled_result, bind, gets, lift.
  destruct (float_of_int (MAX_LOAD st - BASE_LOAD st)); [| reflexivity].
  destruct (float_of_int (BASE_LOAD st)); reflexivity.
Qed.

Lemma scaled_result_exact B Mx F :
  (Z.abs B <= 2 ^ 53)%Z -> (Z.abs Mx <= 2 ^ 53)%Z -> (Z.abs (Mx - B) <= 2 ^ 53)%Z ->
  0 <= F -> F <= 1 ->
  scaled_result B Mx (Fin F) = Ok (factor_target B Mx F).
Proof.
  intros HB HM Hd L U.
  pose (st := mkState JNull B Mx 0 true [] 0 0 ∅ 0 0 0 0 []).
  pose proof (scaled_target_exact F st L U) as E.
  rewrite scaled_target_pure in E. cbn [BASE_LOAD MAX_LOAD st] in E.
  specialize (E (conj HB (conj HM Hd))). congruence.
Qed.

Lemma load_tail_outcome F st :
  0 <= F -> F <= 1 ->
  load_tail (Fin F) st =
    (scaled_result (BASE_LOAD st) (MAX_LOAD st) (Fin F),
     set_current_load_level (factor_level F) st).
Proof.
  intros L U. unfold load_tail.
  destruct (percent_between F L U) as [A B].
  rewrite (fmul_finite _ _ 0 100 ltac:(vm_compute; discriminate)
             ltac:(vm_compute; discriminate) A B).
  unfold int_of_float, bind at 1, lift at 1, bind at 1, modify.
  rewrite (int_of_rat_comp _ _ (Qred_correct _)). fold (factor_level F).
  rewrite scaled_target_pure. reflexivity.
Qed.

Lemma wave_outcome t r st :
  CYCLE_DURATION st <> 0%Z ->
  exists F,
    F == wave_factor (libm_sin (wave_angle st t)) /\ 0 <= F /\ F <= 1 /\
    calculate_target_workers (JStr "wave") t r st =
      (scaled_result (BASE_LOAD st) (MAX_LOAD st) (Fin F),
       set_current_load_level (factor_level F) st).
Proof using libm_sin_range.
  intros Hc. rewrite calculate_target_workers_wave.
  unfold bind at 1. rewrite position_in_cycle_ok by assumption.
  destruct (wave_angle_ok t st Hc) as [E _].
  unfold bind at 1. rewrite E. unfold math_sin, lift at 1.
  destruct (libm_sin_range (wave_angle st t)) as [S0 S1].
  destruct (load_factor_code _ S0 S1) as (F & EF & HF).
  destruct (wave_factor_range _ S0 S1) as [W0 W1].
  exists F. split; [exact HF |]. split; [lra |]. split; [lra |].
  unfold bind at 1. rewrite EF. unfold lift at 1.
  apply load_tail_outcome; lra.
Qed.

Lemma random_outcome t r st :
  CYCLE_DURATION st <> 0%Z -> unit_draw r ->
  calculate_target_workers (JStr "random") t r st =
    (scaled_result (BASE_LOAD st) (MAX_LOAD st) (Fin r),
     set_current_load_level (factor_level r) st).
Proof.
  intros Hc [R0 R1]. rewrite calculate_target_workers_random.
  unfold bind at 1. rewrite position_in_cycle_ok by assumption.
  apply load_tail_outcome; lra.
Qed.

#[local] Close Scope Q_scope.

(** C1, as the code has it, for loads that binary64 holds exactly: with
    [s] the sine that the C library returns on [position * 2 * math.pi],
    the load factor is [(s + 1) / 2], the load level [int(factor * 100)]
    and the target [int(BASE_LOAD + (MAX_LOAD - BASE_LOAD) * factor)],
    every operation rounded to binary64 and [int] cutting the fraction
    off; the call returns and writes nothing but the level.  In the
    scenario the position is 0.25 and the argument of the sine is the
    float nearest to a quarter turn; where the library returns 1 on it the
    factor is 1, the target 50 and the level 100. *)
Theorem wave_pattern :
  (forall t r st,
     CYCLE_DURATION st <> 0 -> exact_loads st ->
     let factor := wave_factor (libm_sin (wave_angle st t)) in
     fmul (fmul (float_position st t) (Fin 2)) math_pi = Fin (wave_angle st t) /\
     (0 <= factor)%Q /\ (factor <= 1)%Q /\
     calculate_target_workers (JStr "wave") t r st =
       (Ok (factor_target (BASE_LOAD st) (MAX_LOAD st) factor),
        set_current_load_level (factor_level factor) st)) /\
  (float_position default_state 30 = Fin (1 # 4) /\
   wave_angle default_state 30 = (884279719003555 # 562949953421312)%Q /\
   forall r,
     (libm_sin (wave_angle default_state 30) == 1)%Q ->
     (wave_factor (libm_sin (wave_angle default_state 30)) == 1)%Q /\
     calculate_target_workers (JStr "wave") 30 r default_state =
       (Ok 50, set_current_load_level 100 default_state)).
Proof using libm_sin_range.
  assert (G : forall t r st,
     CYCLE_DURATION st <> 0 -> exact_loads st ->
     calculate_target_workers (JStr "wave") t r st =
       (Ok (factor_target (BASE_LOAD st) (MAX_LOAD st)
              (wave_factor (libm_sin (wave_angle st t)))),
        set_current_load_level
          (factor_level (wave_factor (libm_sin (wave_angle st t)))) st)).
  { intros t r st Hc (HB & HM & Hd).
    destruct (wave_outcome t r st Hc) as (F & EF & F0 & F1 & E).
    rewrite E, scaled_result_exact by assumption.
    rewrite (factor_target_comp _ _ _ _ EF), (factor_level_comp _ _ EF). reflexivity. }
  split.
  - intros t r st Hc Hl factor. subst factor.
    destruct (libm_sin_range (wave_angle st t)) as [S0 S1].
    destruct (wave_factor_range _ S0 S1) as [W0 W1].
    split; [apply wave_angle_ok; assumption |].
    split; [exact W0 |]. split; [exact W1 |]. apply G; assumption.
  - split; [vm_compute; reflexivity |]. split; [vm_compute; reflexivity |].
    intros r Hs.
    assert (W : (wave_factor (libm_sin (wave_angle default_state 30)) == 1)%Q).
    { unfold wave_factor. rewrite Hs. vm_compute. reflexivity. }
    split; [exact W |].
    rewrite G; [| discriminate | vm_compute; repeat split; discriminate].
    rewrite (factor_target_comp _ _ _ _ W), (factor_level_comp _ _ W).
    vm_compute. reflexivity.
Qed.


(** ** What the handlers and a disabled loop leave alone *)

Section Frame.

Context {T : Type} (proj : state -> T).

Lemma preserves_ret {A} (a : A) : preserves proj (ret a).
Proof. intros st. reflexivity. Qed.

Lemma preserves_raise {A} e : preserves proj (@raise A e).
Proof. intros st. reflexivity. Qed.

Lemma preserves_lift {A} (r : result A) : preserves proj (lift r).
Proof. intros st. reflexivity. Qed.

Lemma preserves_gets {A} (f : state -> A) : preserves proj (gets f).
Proof. intros st. reflexivity. Qed.

Lemma preserves_modify f :
  (forall st, proj (f st) = proj st) -> preserves proj (modify f).
Proof. intros H st. apply H. Qed.

Lemma preserves_bind {A B} (c : M A) (k : A -> M B) :
  preserves proj c -> (forall a, preserves proj (k a)) -> preserves proj (bind c k).
Proof.
  intros Hc Hk st. unfold bind. specialize (Hc st).
  destruct (c st) as [[a | e] st1]; simpl in *.
  - rewrite Hk. exact Hc.
  - exact Hc.
Qed.

Lemma preserves_when b c : preserves proj c -> preserves proj (when b c).
Proof. intros H. destruct b; [exact H | apply preserves_ret]. Qed.

Lemma preserves_try_except {A} (c : M A) h :
  preserves proj c -> (forall e, preserves proj (h e)) -> preserves proj (try_except c h).
Proof.
  intros Hc Hh st. unfold try_except. specialize (Hc st).
  destruct (c st) as [[a | e] st1]; simpl in *.
  - exact Hc.
  - rewrite Hh. exact Hc.
Qed.

End Frame.

Ltac preserves_step :=
  first
    [ apply preserves_ret | apply preserves_raise | apply preserves_lift
    | apply preserves_gets
    | apply preserves_modify; intros; reflexivity
    | apply preserves_when
    | apply preserves_bind; [| intros ?]
    | apply preserves_try_except; [| intros ?] ].

Lemma set_pattern_keeps_manager name : preserves manager_view (set_pattern name).
Proof.
  unfold set_pattern, logger, requests_total_inc.
  destruct (negb _); repeat preserves_step.
Qed.

Lemma update_config_keeps_manager int_of_str body :
  preserves manager_view (update_config int_of_str body).
Proof.
  unfold update_config, if_present, logger, requests_total_inc.
  repeat preserves_step.
Qed.

Lemma snd_view (h : M response) st : snd (view h st) = snd (h st).
Proof. unfold view. destruct (h st) as [[r | e] st']; reflexivity. Qed.

(** X10: with [ENABLED] false the pool and the manager's gauges are the same
    after any sequence of loop rounds and administrative requests: no
    event switches the controller on, and no round spawns a worker. *)
Lemma disabled_run int_of_str evs : forall st,
  ENABLED st = false ->
  manager_view (run int_of_str evs st) = manager_view st.
Proof.
  induction evs as [| ev evs IH]; intros st H; [reflexivity |].
  assert (S : manager_view (step int_of_str st ev) = manager_view st).
  { destruct ev as [s | body | name]; simpl.
    - rewrite manage_workers_iteration_disabled by assumption. reflexivity.
    - rewrite snd_view. apply update_config_keeps_manager.
    - rewrite snd_view. apply set_pattern_keeps_manager. }
  change (run int_of_str (ev :: evs) st)
    with (run int_of_str evs (step int_of_str st ev)).
  rewrite IH.
  - exact S.
  - apply (f_equal (fun v => fst (fst (fst (fst v))))) in S. simpl in S.
    rewrite S. exact H.
Qed.

(** * Further properties of the controller *)

(** ** The pattern function, branch by branch *)

Lemma py_eq_str_true mode s : py_eq_str mode s = true -> mode = JStr s.
Proof.
  destruct mode; simpl; try discriminate.
  intros H. apply String.eqb_eq in H. subst. reflexivity.
Qed.

Lemma mode_cases mode :
  mode = JStr "manual" \/ mode = JStr "wave" \/ mode = JStr "spike" \/
  mode = JStr "random" \/
  (py_eq_str mode "manual" = false /\ py_eq_str mode "wave" = false /\
   py_eq_str mode "spike" = false /\ py_eq_str mode "random" = false).
Proof.
  destruct (py_eq_str mode "manual") eqn:E1;
    [left; apply py_eq_str_true, E1 | right].
  destruct (py_eq_str mode "wave") eqn:E2;
    [left; apply py_eq_str_true, E2 | right].
  destruct (py_eq_str mode "spike") eqn:E3;
    [left; apply py_eq_str_true, E3 | right].
  destruct (py_eq_str mode "random") eqn:E4;
    [left; apply py_eq_str_true, E4 | right].
  repeat split; reflexivity.
Qed.

Lemma calculate_target_workers_other mode t r st :
  py_eq_str mode "manual" = false -> py_eq_str mode "wave" = false ->
  py_eq_str mode "spike" = false -> py_eq_str mode "random" = false ->
  calculate_target_workers mode t r st =
  bind (position_in_cycle t) (fun _ => gets BASE_LOAD) st.
Proof.
  intros E1 E2 E3 E4. unfold calculate_target_workers.
  rewrite E1, E2, E3, E4. reflexivity.
Qed.

Lemma calculate_target_workers_fallback mode t r st :
  (forall s, In s valid_patterns -> mode <> JStr s) ->
  CYCLE_DURATION st <> 0 ->
  calculate_target_workers mode t r st = (Ok (BASE_LOAD st), st).
Proof.
  intros Hmode Hc.
  rewrite calculate_target_workers_other
    by (apply py_eq_str_false, Hmode; simpl; tauto).
  unfold bind. rewrite position_in_cycle_ok by assumption. reflexivity.
Qed.

Lemma calculate_target_workers_zero_cycle mode t r st :
  py_eq_str mode "manual" = false -> CYCLE_DURATION st = 0 ->
  calculate_target_workers mode t r st = (Raise ZeroDivisionError, st).
Proof.
  intros Hm Hc. unfold calculate_target_workers. rewrite Hm.
  unfold bind at 1. rewrite position_in_cycle_zero by assumption. reflexivity.
Qed.

(** The low plateau of [spike]: the conversion of the difference of the
    loads and [int] of the product may raise. *)
Lemma spike_outcome t r st :
  CYCLE_DURATION st <> 0 ->
  calculate_target_workers (JStr "spike") t r st =
  if spike_test (float_position st t)
  then (Ok (MAX_LOAD st), set_current_load_level 100 st)
  else (fifth_result (BASE_LOAD st) (MAX_LOAD st), set_current_load_level 20 st).
Proof.
  intros Hc. rewrite calculate_target_workers_spike.
  unfold bind at 1. rewrite position_in_cycle_ok by assumption.
  fold (spike_test (float_position st t)).
  destruct (spike_test (float_position st t)); [reflexivity |].
  unfold fifth_result, bind, modify, gets, lift, ret. cbn [BASE_LOAD MAX_LOAD set_current_load_level].
  destruct (float_of_int (MAX_LOAD st - BASE_LOAD st)); [| reflexivity].
  destruct (int_of_float (fmul a (float_lit 0.2))); reflexivity.
Qed.

(** *** Which exceptions there are *)

Lemma round64_cases x : (exists q, round64 x = Fin q) \/ (exists s, round64 x = Inf s).
Proof.
  unfold round64. destruct (Qle_bool _ _); eauto.
Qed.

Lemma float_of_int_cases n :
  (exists q, float_of_int n = Ok (Fin q)) \/ float_of_int n = Raise OverflowError.
Proof.
  unfold float_of_int. destruct (round64_cases (inject_Z n)) as [[q ->] | [s ->]]; eauto.
Qed.

Lemma int_of_round64 x e : int_of_float (round64 x) = Raise e -> e = OverflowError.
Proof.
  destruct (round64_cases x) as [[q ->] | [s ->]]; simpl; congruence.
Qed.

Lemma scaled_result_raises B Mx F e :
  scaled_result B Mx (Fin F) = Raise e -> e = OverflowError.
Proof.
  unfold scaled_result.
  destruct (float_of_int_cases (Mx - B)) as [[d ->] | ->]; [| congruence].
  destruct (float_of_int_cases B) as [[b ->] | ->]; [| congruence].
  unfold fmul.
  destruct (round64_cases (d * F)) as [[q ->] | [s ->]]; unfold fadd.
  - apply int_of_round64.
  - simpl. congruence.
Qed.

Lemma fifth_result_raises B Mx e :
  fifth_result B Mx = Raise e -> e = OverflowError.
Proof.
  unfold fifth_result.
  destruct (float_of_int_cases (Mx - B)) as [[d ->] | ->]; [| congruence].
  rewrite float_lit_fifth. unfold fmul.
  destruct (int_of_float (round64 _)) eqn:E; [discriminate |].
  apply int_of_round64 in E. congruence.
Qed.

Lemma calculate_target_workers_exn mode t r st e :
  fst (calculate_target_workers mode t r st) = Raise e ->
  (e = ZeroDivisionError /\ py_eq_str mode "manual" = false /\ CYCLE_DURATION st = 0) \/
  (e = OverflowError /\ CYCLE_DURATION st <> 0 /\
   (mode = JStr "wave" \/ mode = JStr "spike" \/ mode = JStr "random")).
Proof using libm_sin_range.
  intros H. destruct (Z.eq_dec (CYCLE_DURATION st) 0) as [Hc | Hc].
  - left. destruct (py_eq_str mode "manual") eqn:Hm.
    + apply py_eq_str_true in Hm. subst mode. discriminate H.
    + rewrite calculate_target_workers_zero_cycle in H by assumption.
      simpl in H. split; [congruence | split; [reflexivity | assumption]].
  - right. split; [| split; [exact Hc |]];
      destruct (mode_cases mode) as [-> | [-> | [-> | [-> | (E1 & E2 & E3 & E4)]]]].
    + discriminate H.
    + destruct (wave_outcome t r st Hc) as (F & _ & _ & _ & E).
      rewrite E in H. apply scaled_result_raises in H. exact H.
    + rewrite spike_outcome in H by assumption.
      destruct (spike_test _); [discriminate H |].
      apply fifth_result_raises in H. exact H.
    + rewrite calculate_target_workers_random in H.
      unfold bind at 1 in H. rewrite position_in_cycle_ok in H by assumption.
      unfold load_tail, bind, lift, modify in H.
      destruct (int_of_float (fmul (Fin r) (Fin 100))) eqn:E.
      * rewrite scaled_target_pure in H. apply scaled_result_raises in H. exact H.
      * simpl in H. unfold fmul in E. apply int_of_round64 in E. congruence.
    + rewrite calculate_target_workers_other in H by assumption.
      unfold bind in H. rewrite position_in_cycle_ok in H by assumption.
      discriminate H.
    + discriminate H.
    + auto.
    + auto.
    + auto.
    + rewrite calculate_target_workers_other in H by assumption.
      unfold bind in H. rewrite position_in_cycle_ok in H by assumption.
      discriminate H.
Qed.

(** *** Loads that binary64 holds exactly *)

#[local] Open Scope Q_scope.

Lemma fifth_result_range B Mx :
  (Z.abs (Mx - B) <= 2 ^ 53)%Z ->
  exists n, fifth_result B Mx = Ok n /\ (Z.min B Mx <= n <= Z.max B Mx)%Z.
Proof.
  intros Hd. unfold fifth_result.
  rewrite float_of_int_exact by assumption. rewrite float_lit_fifth.
  set (v := 3602879701896397 # 18014398509481984).
  destruct (span_between (Mx - B) v ltac:(discriminate) ltac:(discriminate)) as [A C].
  rewrite (fmul_finite _ _ (Z.min 0 (Mx - B)) (Z.max 0 (Mx - B))
             ltac:(lia) ltac:(lia) A C).
  destruct (round_val_between (Z.min 0 (Mx - B)) (Z.max 0 (Mx - B)) _
              ltac:(lia) ltac:(lia) A C) as [A' C'].
  unfold int_of_float. eexists. split; [reflexivity |].
  rewrite (int_of_rat_comp _ _ (Qred_correct _)).
  pose proof (int_of_rat_between _ _ _ A' C'). lia.
Qed.

#[local] Close Scope Q_scope.

(** The outcome of every branch when the loads are exact and the random
    draw is in [[0, 1)]: a target, and the level stored. *)
Lemma calculate_target_workers_exact mode t r st :
  mode = JStr "wave" \/ mode = JStr "spike" \/ mode = JStr "random" ->
  CYCLE_DURATION st <> 0 ->
  exact_loads st ->
  unit_draw r ->
  exists target level,
    calculate_target_workers mode t r st
      = (Ok target, set_current_load_level level st) /\
    Z.min (BASE_LOAD st) (MAX_LOAD st) <= target <= Z.max (BASE_LOAD st) (MAX_LOAD st) /\
    0 <= level <= 100.
Proof using libm_sin_range.
  intros Hmode Hc (HB & HM & Hd) Hr.
  destruct Hmode as [-> | [-> | ->]].
  - destruct (wave_outcome t r st Hc) as (F & _ & F0 & F1 & E).
    rewrite E, scaled_result_exact by assumption.
    eexists. eexists. split; [reflexivity |].
    split; [apply factor_target_range | apply factor_level_range]; assumption.
  - rewrite spike_outcome by assumption. destruct (spike_test _).
    + eexists. eexists. split; [reflexivity |]. lia.
    + destruct (fifth_result_range _ _ Hd) as (n & -> & Hn).
      eexists. eexists. split; [reflexivity |]. lia.
  - destruct Hr as [R0 R1]. rewrite random_outcome by (try assumption; split; assumption).
    rewrite scaled_result_exact by (try assumption; apply Qlt_le_weak; assumption).
    eexists. eexists. split; [reflexivity |].
    split; [apply factor_target_range | apply factor_level_range];
      try assumption; apply Qlt_le_weak; assumption.
Qed.

(** *** What the call writes, and when it returns *)

Lemma level_frame a b :
  set_current_load_level 0 a = set_current_load_level 0 b ->
  a = set_current_load_level (current_load_level a) b.
Proof.
  destruct a, b. unfold set_current_load_level. simpl. intros [=]. subst. reflexivity.
Qed.

Lemma calculate_target_workers_state mode t r st :
  exists v, snd (calculate_target_workers mode t r st) = set_current_load_level v st.
Proof.
  assert (P : preserves (set_current_load_level 0) (calculate_target_workers mode t r)).
  { unfold calculate_target_workers, position_in_cycle. cbv zeta.
    repeat first
      [ preserves_step
      | match goal with
        | |- preserves _ (if ?b then _ else _) => destruct b
        end ]. }
  eexists. apply level_frame, P.
Qed.

Lemma calculate_target_workers_level mode t r st :
  unit_draw r ->
  0 <= current_load_level st <= 100 ->
  0 <= current_load_level (snd (calculate_target_workers mode t r st)) <= 100.
Proof using libm_sin_range.
  intros Hr Hl.
  destruct (Z.eq_dec (CYCLE_DURATION st) 0) as [Hc | Hc].
  { destruct (py_eq_str mode "manual") eqn:Hm.
    - apply py_eq_str_true in Hm. subst mode. exact Hl.
    - rewrite calculate_target_workers_zero_cycle by assumption. exact Hl. }
  destruct (mode_cases mode) as [-> | [-> | [-> | [-> | (E1 & E2 & E3 & E4)]]]].
  - exact Hl.
  - destruct (wave_outcome t r st Hc) as (F & _ & F0 & F1 & E).
    rewrite E. simpl. apply factor_level_range; assumption.
  - rewrite spike_outcome by assumption. destruct (spike_test _); simpl; lia.
  - rewrite random_outcome by assumption. simpl.
    destruct Hr as [R0 R1]. apply factor_level_range; [assumption |].
    apply Qlt_le_weak; assumption.
  - rewrite calculate_target_workers_other by assumption.
    unfold bind. rewrite position_in_cycle_ok by assumption. exact Hl.
Qed.

Lemma calculate_target_workers_returns mode t r st :
  exact_loads st -> unit_draw r ->
  py_eq_str mode "manual" = true \/ CYCLE_DURATION st <> 0 ->
  exists target st', calculate_target_workers mode t r st = (Ok target, st').
Proof using libm_sin_range.
  intros Hl Hr H.
  destruct (py_eq_str mode "manual") eqn:Hm.
  { apply py_eq_str_true in Hm. subst mode. eexists. eexists. reflexivity. }
  destruct H as [H | Hc]; [discriminate |].
  destruct (mode_cases mode) as [-> | [-> | [-> | [-> | (E1 & E2 & E3 & E4)]]]].
  - discriminate.
  - destruct (calculate_target_workers_exact (JStr "wave") t r st) as (n & l & E & _);
      auto; eauto.
  - destruct (calculate_target_workers_exact (JStr "spike") t r st) as (n & l & E & _);
      auto; eauto.
  - destruct (calculate_target_workers_exact (JStr "random") t r st) as (n & l & E & _);
      auto; eauto.
  - rewrite calculate_target_workers_other by assumption.
    unfold bind. rewrite position_in_cycle_ok by assumption. eexists. eexists. reflexivity.
Qed.

(** X1: The division by a zero [CYCLE_DURATION] is met by every pattern
    but [manual] and leaves the globals as they were.  The only other
    exception is [OverflowError], raised by [wave], [spike] and [random]
    where a load is too large for a float; with loads that binary64 holds
    exactly and a random draw in [[0, 1)] the call returns a target. *)
Theorem calculate_target_workers_raises (mode : json) (t : Z) (r : Q) (st : state) :
  (py_eq_str mode "manual" = false /\ CYCLE_DURATION st = 0 <->
   calculate_target_workers mode t r st = (Raise ZeroDivisionError, st)) /\
  (forall e, fst (calculate_target_workers mode t r st) = Raise e ->
     (e = ZeroDivisionError /\ py_eq_str mode "manual" = false /\
      CYCLE_DURATION st = 0) \/
     (e = OverflowError /\ CYCLE_DURATION st <> 0 /\
      (mode = JStr "wave" \/ mode = JStr "spike" \/ mode = JStr "random"))) /\
  ((exists target st', calculate_target_workers mode t r st = (Ok target, st')) ->
   py_eq_str mode "manual" = true \/ CYCLE_DURATION st <> 0) /\
  (exact_loads st -> unit_draw r ->
   py_eq_str mode "manual" = true \/ CYCLE_DURATION st <> 0 ->
   exists target st', calculate_target_workers mode t r st = (Ok target, st')).
Proof using libm_sin_range.
  split; [| split; [| split]].
  - split.
    + intros [Hm Hc]. apply calculate_target_workers_zero_cycle; assumption.
    + intros H.
      assert (H' : fst (calculate_target_workers mode t r st) = Raise ZeroDivisionError)
        by (rewrite H; reflexivity).
      apply calculate_target_workers_exn in H'.
      destruct H' as [(_ & Hm & Hc) | (He & _)]; [split; assumption | discriminate].
  - intros e. apply calculate_target_workers_exn.
  - intros (target & st' & H).
    destruct (py_eq_str mode "manual") eqn:Hm; [left; reflexivity | right].
    intros Hc. rewrite calculate_target_workers_zero_cycle in H by assumption.
    discriminate.
  - apply calculate_target_workers_returns.
Qed.

Lemma position_in_cycle_periodic t k st :
  CYCLE_DURATION st <> 0 ->
  position_in_cycle (t + k * CYCLE_DURATION st) st = position_in_cycle t st.
Proof.
  intros Hc. rewrite !position_in_cycle_ok by assumption.
  unfold float_position. rewrite Z.mod_add by assumption. reflexivity.
Qed.

(** X2: The patterns repeat with period [CYCLE_DURATION]: with the same
    random draw, elapsed times that differ by whole cycles give the same
    target and the same load level. *)
Theorem calculate_target_workers_periodic
    (mode : json) (t k : Z) (r : Q) (st : state) :
  CYCLE_DURATION st <> 0 ->
  calculate_target_workers mode (t + k * CYCLE_DURATION st) r st
  = calculate_target_workers mode t r st.
Proof.
  intros Hc. unfold calculate_target_workers.
  destruct (py_eq_str mode "manual"); [reflexivity |].
  unfold bind at 1 3. rewrite position_in_cycle_periodic by assumption. reflexivity.
Qed.

(** ** Targets and load levels stay in range *)

(** X3: Under [wave], [spike] and [random], with [BASE_LOAD <= MAX_LOAD],
    both exact in binary64, a nonzero cycle and a random draw in
    [[0, 1)], the target is between [BASE_LOAD] and [MAX_LOAD] and the
    load level that is stored is a percentage; nothing else is written. *)
Theorem pattern_target_in_range (mode : json) (t : Z) (r : Q) (st : state) :
  mode = JStr "wave" \/ mode = JStr "spike" \/ mode = JStr "random" ->
  CYCLE_DURATION st <> 0 ->
  BASE_LOAD st <= MAX_LOAD st ->
  exact_loads st ->
  unit_draw r ->
  exists target level,
    calculate_target_workers mode t r st
      = (Ok target, set_current_load_level level st) /\
    BASE_LOAD st <= target <= MAX_LOAD st /\
    0 <= level <= 100.
Proof using libm_sin_range.
  intros Hmode Hc Hb Hl Hr.
  destruct (calculate_target_workers_exact mode t r st Hmode Hc Hl Hr)
    as (target & level & E & Ht & Hlv).
  exists target, level. split; [exact E |]. split; [lia | exact Hlv].
Qed.

(** ** One round of the manager loop *)

Lemma reconcile_ok target st : reconcile target st = (Ok tt, snd (reconcile target st)).
Proof.
  destruct (Z.lt_trichotomy target (alive_count (workers st))) as [H | [H | H]].
  - rewrite reconcile_scale_down by assumption. reflexivity.
  - rewrite reconcile_steady by assumption. reflexivity.
  - rewrite reconcile_scale_up by lia. reflexivity.
Qed.

Lemma reconcile_alive target st :
  alive_count (workers (snd (reconcile target st)))
  = Z.max (alive_count (workers st)) target.
Proof.
  destruct (Z.lt_trichotomy target (alive_count (workers st))) as [H | [H | H]].
  - rewrite reconcile_scale_down by assumption. simpl. lia.
  - rewrite reconcile_steady by assumption. simpl. lia.
  - rewrite reconcile_scale_up by lia. simpl.
    rewrite spawn_workers_spec, alive_count_app, alive_count_spawned, length_seq.
    lia.
Qed.

Lemma reconcile_extends target st :
  exists new, workers (snd (reconcile target st)) = workers st ++ new.
Proof.
  destruct (Z.lt_trichotomy target (alive_count (workers st))) as [H | [H | H]].
  - rewrite reconcile_scale_down by assumption. exists []. simpl. now rewrite app_nil_r.
  - rewrite reconcile_steady by assumption. exists []. simpl. now rewrite app_nil_r.
  - rewrite reconcile_scale_up by lia. simpl. rewrite spawn_workers_spec. eauto.
Qed.

Lemma manage_workers_iteration_unfold s st :
  manage_workers_iteration s st =
  if ENABLED st then
    match calculate_target_workers (PATTERN_MODE st) (elapsed s) (rnd s) st with
    | (Ok target, st1) =>
        let st2 := snd (reconcile target st1) in
        (Ok tt,
         set_cpu_usage_estimate (cpu_percent s / 100)%Q
           (set_memory_usage_bytes (rss s)
              (set_load_level (current_load_level st2)
                 (set_active_workers (alive_count (workers st2)) st2))))
    | (Raise e, st1) => (Ok tt, set_log (log st1 ++ [ManagerError e]) st1)
    end
  else
    (Ok tt,
     set_cpu_usage_estimate (cpu_percent s / 100)%Q
       (set_memory_usage_bytes (rss s) st)).
Proof.
  destruct (ENABLED st) eqn:He;
    [| apply manage_workers_iteration_disabled; assumption].
  unfold manage_workers_iteration, try_except.
  unfold bind at 1, gets at 1. rewrite He. unfold bind at 1, when.
  unfold bind at 1, gets at 1. unfold bind at 1.
  destruct (calculate_target_workers _ _ _ st) as [[target | e] st1];
    [| reflexivity].
  unfold bind at 1. rewrite reconcile_ok. reflexivity.
Qed.

Lemma reconcile_no_error target st1 n :
  (n <= length (log st1))%nat ->
  (forall e, ~ In (ManagerError e) (skipn n (log st1))) ->
  forall e, ~ In (ManagerError e) (skipn n (log (snd (reconcile target st1)))).
Proof.
  intros Hn H e.
  destruct (Z.lt_trichotomy target (alive_count (workers st1))) as [C | [C | C]].
  - rewrite reconcile_scale_down by assumption. simpl.
    rewrite skipn_app. intros Hin. apply in_app_or in Hin. destruct Hin as [Hin | Hin].
    + exact (H e Hin).
    + replace (n - length (log st1))%nat with 0%nat in Hin by lia.
      simpl in Hin. destruct Hin as [? | []]. discriminate.
  - rewrite reconcile_steady by assumption. simpl. apply H.
  - rewrite reconcile_scale_up by lia. simpl.
    rewrite skipn_app. intros Hin. apply in_app_or in Hin. destruct Hin as [Hin | Hin].
    + exact (H e Hin).
    + replace (n - length (log st1))%nat with 0%nat in Hin by lia.
      simpl in Hin. destruct Hin as [? | []]. discriminate.
Qed.

Lemma iteration_no_error s st :
  ENABLED st = false \/
  (exists target,
     fst (calculate_target_workers (PATTERN_MODE st) (elapsed s) (rnd s) st) = Ok target) ->
  (forall e, ~ In (ManagerError e)
               (skipn (length (log st)) (log (snd (manage_workers_iteration s st))))) /\
  memory_usage_bytes (snd (manage_workers_iteration s st)) = rss s.
Proof.
  intros H. rewrite manage_workers_iteration_unfold.
  destruct (ENABLED st) eqn:He.
  2: { simpl. split; [| reflexivity]. intros e. rewrite skipn_all. intros []. }
  destruct H as [H | [target H]]; [discriminate |].
  destruct (calculate_target_workers_state (PATTERN_MODE st) (elapsed s) (rnd s) st)
    as [v Hv].
  destruct (calculate_target_workers _ _ _ st) as [[target' | e'] st1];
    simpl in H, Hv; [| discriminate]. subst st1. cbv zeta. simpl.
  split; [| reflexivity].
  apply reconcile_no_error; simpl; [lia |].
  intros e. rewrite skipn_all. intros [].
Qed.

(** X4: A round of the loop never lets an exception out.  Where the
    pattern call raises, the round logs the exception and does nothing
    else: no worker is started and no gauge is set, the memory and CPU
    gauges included; what the call wrote before it raised (the load level,
    under [OverflowError]) stays.  With a zero [CYCLE_DURATION] and a
    pattern other than [manual] that is the whole round.  A round that is
    disabled or whose call returns logs no error and sets the memory
    gauge, and so does every round with a nonzero cycle, exact loads and a
    random draw in [[0, 1)]. *)
Theorem manage_workers_iteration_errors (s : sample) (st : state) :
  let st' := snd (manage_workers_iteration s st) in
  let call := calculate_target_workers (PATTERN_MODE st) (elapsed s) (rnd s) st in
  let failing :=
    ENABLED st = true /\ py_eq_str (PATTERN_MODE st) "manual" = false /\
    CYCLE_DURATION st = 0 in
  fst (manage_workers_iteration s st) = Ok tt /\
  (failing -> st' = set_log (log st ++ [ManagerError ZeroDivisionError]) st) /\
  (forall e, ENABLED st = true -> fst call = Raise e ->
     st' = set_log (log (snd call) ++ [ManagerError e]) (snd call) /\
     (exists level, snd call = set_current_load_level level st) /\
     (e = ZeroDivisionError \/ e = OverflowError)) /\
  (ENABLED st = false \/ (exists target, fst call = Ok target) ->
     (forall e, ~ In (ManagerError e) (skipn (length (log st)) (log st'))) /\
     memory_usage_bytes st' = rss s) /\
  (exact_loads st -> unit_draw (rnd s) -> ~ failing ->
     (forall e, ~ In (ManagerError e) (skipn (length (log st)) (log st'))) /\
     memory_usage_bytes st' = rss s).
Proof using libm_sin_range.
  cbv zeta. split; [| split; [| split; [| split]]].
  - rewrite manage_workers_iteration_unfold.
    destruct (ENABLED st); [| reflexivity].
    destruct (calculate_target_workers _ _ _ st) as [[target | e] st1]; reflexivity.
  - intros (He & Hm & Hc). rewrite manage_workers_iteration_unfold, He.
    rewrite calculate_target_workers_zero_cycle by assumption. reflexivity.
  - intros e He Hcall. split; [| split].
    + rewrite manage_workers_iteration_unfold, He.
      destruct (calculate_target_workers _ _ _ st) as [[target | e'] st1];
        simpl in Hcall; [discriminate |].
      injection Hcall as ->. reflexivity.
    + apply calculate_target_workers_state.
    + apply calculate_target_workers_exn in Hcall.
      destruct Hcall as [(-> & _) | (-> & _)]; [left | right]; reflexivity.
  - apply iteration_no_error.
  - intros Hl Hr Hf. apply iteration_no_error.
    destruct (ENABLED st) eqn:He; [right | left; reflexivity].
    destruct (calculate_target_workers_returns (PATTERN_MODE st) (elapsed s) (rnd s) st
                Hl Hr) as (target & st1 & E).
    + destruct (py_eq_str (PATTERN_MODE st) "manual") eqn:Hm; [left; reflexivity |].
      right. intros Hc. apply Hf. auto.
    + exists target. rewrite E. reflexivity.
Qed.

(** X5: An enabled round whose pattern call returns [target]: the pool is
    brought up to the target and never down, the [active_workers] gauge
    shows the live workers, which are [max(previous, target)], the
    [load_level] gauge shows the level the pattern stored, and both system
    gauges take the new readings. *)
Theorem enabled_iteration_gauges (s : sample) (st st1 : state) (target : Z) :
  ENABLED st = true ->
  calculate_target_workers (PATTERN_MODE st) (elapsed s) (rnd s) st
    = (Ok target, st1) ->
  let st' := snd (manage_workers_iteration s st) in
  (exists new, workers st' = workers st ++ new) /\
  alive_count (workers st') = Z.max (alive_count (workers st)) target /\
  active_workers st' = alive_count (workers st') /\
  load_level st' = current_load_level st1 /\
  current_load_level st' = current_load_level st1 /\
  memory_usage_bytes st' = rss s /\
  cpu_usage_estimate st' = (cpu_percent s / 100)%Q.
Proof.
  intros He Hcalc. cbv zeta. rewrite manage_workers_iteration_unfold, He, Hcalc.
  cbv zeta. simpl.
  assert (W : workers st1 = workers st).
  { destruct (calculate_target_workers_state (PATTERN_MODE st) (elapsed s) (rnd s) st)
      as [v Hv].
    rewrite Hcalc in Hv. simpl in Hv. subst st1. reflexivity. }
  pose proof (reconcile_frame target st1) as F. cbv zeta in F.
  destruct F as (_ & _ & _ & _ & _ & _ & Fl).
  rewrite reconcile_alive, W.
  destruct (reconcile_extends target st1) as [new Hn]. rewrite W in Hn.
  repeat split; eauto.
Qed.

(** ** [reconcile] composed with itself *)

(** X6: A target that is not above the one before it is without effect on the
    pool: the workers started for the higher target all stay, and asking
    for the same target twice starts nobody the second time. *)
Theorem reconcile_never_scales_down (high low : Z) (st : state) :
  low <= high ->
  let st1 := snd (reconcile high st) in
  workers (snd (reconcile low st1)) = workers st1 /\
  alive_count (workers (snd (reconcile low st1))) >= high.
Proof.
  intros Hl. cbv zeta. pose proof (reconcile_alive high st) as Ha.
  set (st1 := snd (reconcile high st)) in *.
  assert (E : workers (snd (reconcile low st1)) = workers st1).
  { destruct (Z.lt_trichotomy low (alive_count (workers st1))) as [H | [H | H]].
    - rewrite reconcile_scale_down by assumption. reflexivity.
    - rewrite reconcile_steady by assumption. reflexivity.
    - lia. }
  rewrite E. split; [reflexivity | lia].
Qed.

Lemma reconcile_never_scales_down_witness :
  let st1 := snd (reconcile 5 default_state) in
  workers (snd (reconcile 2 st1)) = workers st1.
Proof.
  exact (proj1 (reconcile_never_scales_down 5 2 default_state ltac:(lia))).
Defined.

(** ** A scale-up, worker by worker *)

(** X7: A call with the target above the live workers appends exactly
    [target - current] threads behind the pool it found, all alive; the
    [k]-th of them is given [len(workers) + 2k] as its number, so within
    the call the numbers are distinct and at least [len(workers)]. *)
Theorem reconcile_scale_up_spawns (target : Z) (st : state) :
  alive_count (workers st) < target ->
  let n := Z.to_nat (target - alive_count (workers st)) in
  let new := map (fun k => mkThread (Z.of_nat (length (workers st)) + 2 * Z.of_nat k) true)
                 (seq 0 n) in
  workers (snd (reconcile target st)) = workers st ++ new /\
  Z.of_nat (length new) = target - alive_count (workers st) /\
  List.NoDup (map worker_id new) /\
  Forall (fun w => Z.of_nat (length (workers st)) <= worker_id w /\ alive w = true) new.
Proof.
  intros H. cbv zeta. rewrite reconcile_scale_up by assumption. simpl.
  rewrite spawn_workers_spec.
  split; [| split; [| split]].
  - f_equal. apply map_ext. intros k. f_equal. lia.
  - rewrite length_map, length_seq. lia.
  - rewrite map_map. simpl. apply Finite.Injective_map_NoDup.
    + intros a b Hab. lia.
    + apply List.seq_NoDup.
  - apply Forall_forall. intros w Hw. apply list_elem_of_In, in_map_iff in Hw.
    destruct Hw as (k & <- & _). simpl. split; [lia | reflexivity].
Qed.

Lemma reconcile_scale_up_spawns_witness :
  map worker_id (workers (snd (reconcile 3 default_state))) = [0; 2; 4].
Proof.
  pose proof (reconcile_scale_up_spawns 3 default_state eq_refl) as H.
  cbv zeta in H. destruct H as [H _]. rewrite H. reflexivity.
Defined.

(** ** Invariants of the whole process *)

Lemma iteration_extends s st :
  ENABLED (snd (manage_workers_iteration s st)) = ENABLED st /\
  exists new, workers (snd (manage_workers_iteration s st)) = workers st ++ new.
Proof.
  rewrite manage_workers_iteration_unfold.
  destruct (ENABLED st) eqn:He;
    [| simpl; split; [assumption | exists []; now rewrite app_nil_r]].
  destruct (calculate_target_workers_state (PATTERN_MODE st) (elapsed s) (rnd s) st)
    as [v Hv].
  destruct (calculate_target_workers _ _ _ st) as [[target | e] st1];
    simpl in Hv; subst st1; simpl.
  - pose proof (reconcile_frame target (set_current_load_level v st)) as F.
    cbv zeta in F. destruct F as (_ & _ & _ & _ & Fe & _).
    destruct (reconcile_extends target (set_current_load_level v st)) as [new Hn].
    split; [rewrite Fe; assumption | exists new; exact Hn].
  - split; [assumption | exists []; now rewrite app_nil_r].
Qed.

Lemma iteration_gauges s st :
  unit_draw (rnd s) -> gauges_in_range st ->
  gauges_in_range (snd (manage_workers_iteration s st)).
Proof using libm_sin_range.
  intros Hr (Hl & Hg & Ha). rewrite manage_workers_iteration_unfold.
  destruct (ENABLED st); [| unfold gauges_in_range; simpl; lia].
  pose proof (calculate_target_workers_level (PATTERN_MODE st) (elapsed s) _ st Hr Hl)
    as Hl1.
  destruct (calculate_target_workers_state (PATTERN_MODE st) (elapsed s) (rnd s) st)
    as [v Hv].
  destruct (calculate_target_workers _ _ _ st) as [[target | e] st1];
    simpl in Hv, Hl1; subst st1; simpl in *.
  - pose proof (reconcile_frame target (set_current_load_level v st)) as F.
    cbv zeta in F. destruct F as (_ & _ & _ & _ & _ & _ & Fl). simpl in Fl.
    pose proof (alive_count_nonneg
                  (workers (snd (reconcile target (set_current_load_level v st))))).
    pose proof (alive_count_le_length
                  (workers (snd (reconcile target (set_current_load_level v st))))).
    unfold gauges_in_range. simpl. rewrite Fl. lia.
  - unfold gauges_in_range. simpl. lia.
Qed.

Lemma step_manager_view_admin int_of_str st ev :
  (forall s, ev <> Tick s) ->
  manager_view (step int_of_str st ev) = manager_view st.
Proof.
  intros H. destruct ev as [s | body | name]; simpl.
  - exfalso. exact (H s eq_refl).
  - rewrite snd_view. apply update_config_keeps_manager.
  - rewrite snd_view. apply set_pattern_keeps_manager.
Qed.

Lemma step_extends int_of_str st ev :
  ENABLED (step int_of_str st ev) = ENABLED st /\
  exists new, workers (step int_of_str st ev) = workers st ++ new.
Proof.
  destruct ev as [s | body | name].
  - apply iteration_extends.
  - pose proof (step_manager_view_admin int_of_str st (PostConfig body)
                  ltac:(discriminate)) as E.
    injection E as E1 E2 _ _ _. split; [exact E1 |].
    exists []. rewrite app_nil_r. exact E2.
  - pose proof (step_manager_view_admin int_of_str st (PostPattern name)
                  ltac:(discriminate)) as E.
    injection E as E1 E2 _ _ _. split; [exact E1 |].
    exists []. rewrite app_nil_r. exact E2.
Qed.

(** X8: Over any sequence of loop rounds and administrative requests the pool
    only grows at its end (no entry is removed or altered, so the live
    workers never become fewer), and [ENABLED] keeps the value the process
    started with. *)
Theorem run_pool_append_only int_of_str (evs : list event) (st : state) :
  let st' := run int_of_str evs st in
  ENABLED st' = ENABLED st /\
  (exists new, workers st' = workers st ++ new) /\
  alive_count (workers st) <= alive_count (workers st').
Proof.
  cbv zeta.
  assert (P : ENABLED (run int_of_str evs st) = ENABLED st /\
              exists new, workers (run int_of_str evs st) = workers st ++ new).
  { revert st. induction evs as [| ev evs IH]; intros st.
    - split; [reflexivity | exists []; now rewrite app_nil_r].
    - change (run int_of_str (ev :: evs) st)
        with (run int_of_str evs (step int_of_str st ev)).
      destruct (IH (step int_of_str st ev)) as (E1 & new1 & W1).
      destruct (step_extends int_of_str st ev) as (E0 & new0 & W0).
      split; [congruence |].
      exists (new0 ++ new1). rewrite W1, W0, app_assoc. reflexivity. }
  destruct P as (E & new & W). split; [exact E |]. split; [eauto |].
  rewrite W, alive_count_app. pose proof (alive_count_nonneg new). lia.
Qed.

(** X9: The load level and both of the manager's gauges stay what their
    descriptions promise over any such sequence, as long as every random
    draw is in [[0, 1)]: the level and its gauge are percentages, and the
    [active_workers] gauge is between zero and the size of the pool. *)
Theorem run_gauges_in_range int_of_str (evs : list event) (st : state) :
  Forall draws_in_unit evs ->
  gauges_in_range st ->
  gauges_in_range (run int_of_str evs st).
Proof using libm_sin_range.
  revert st. induction evs as [| ev evs IH]; intros st Hd Hg; [exact Hg |].
  change (run int_of_str (ev :: evs) st)
    with (run int_of_str evs (step int_of_str st ev)).
  apply Forall_cons in Hd as [Hev Hd]. apply IH; [exact Hd |].
  destruct ev as [s | body | name].
  - apply iteration_gauges; assumption.
  - pose proof (step_manager_view_admin int_of_str st (PostConfig body)
                  ltac:(discriminate)) as E.
    injection E as _ E2 E3 E4 E5. unfold gauges_in_range, step.
    rewrite E2, E3, E4, E5. exact Hg.
  - pose proof (step_manager_view_admin int_of_str st (PostPattern name)
                  ltac:(discriminate)) as E.
    injection E as _ E2 E3 E4 E5. unfold gauges_in_range, step.
    rewrite E2, E3, E4, E5. exact Hg.
Qed.

(** X11: The two administrative requests, whatever they carry and however they
    end, leave the manager's part of the state alone: [ENABLED], the pool,
    the load level and the [active_workers] and [load_level] gauges. *)
Theorem admin_requests_keep_manager :
  (forall int_of_str body st,
     manager_view (snd (view (update_config int_of_str body) st)) = manager_view st) /\
  (forall name st,
     manager_view (snd (view (set_pattern name) st)) = manager_view st).
Proof.
  split.
  - intros f body st. rewrite snd_view. apply update_config_keeps_manager.
  - intros name st. rewrite snd_view. apply set_pattern_keeps_manager.
Qed.

(** ** [POST /config]: bodies without fields, failures, counting *)

Lemma if_present_no_fields key data k st :
  (forall m, data = JObj m -> m = ∅) ->
  snd (if_present key data k st) = st.
Proof.
  intros H. unfold if_present, bind, lift, when, ret.
  destruct data as [| b | n | q | s | l | m]; simpl; try reflexivity.
  - destruct (String.index 0 key s); reflexivity.
  - destruct (existsb _ l); reflexivity.
  - rewrite (H m eq_refl), lookup_empty. reflexivity.
Qed.

Lemma bind_no_fields {A} key data k (f : unit -> M A) st :
  (forall m, data = JObj m -> m = ∅) ->
  bind (if_present key data k) f st = f tt st \/
  exists e, bind (if_present key data k) f st = (Raise e, st).
Proof.
  intros H. unfold bind. pose proof (if_present_no_fields key data k st H) as E.
  destruct (if_present key data k st) as [[[] | e] st1]; simpl in E; subst st1; eauto.
Qed.

(** X14: A body that is not an object with at least one field (a list, a
    string, a number, [true], or anything false in Python's sense) writes
    no global and no log record: at most the request counter moves.  A
    number or [true] fails the request, since [in] does not apply to it. *)
Theorem update_config_without_fields int_of_str (body : json) (st : state) :
  (forall m, body = JObj m -> m = ∅) ->
  let out := view (update_config int_of_str body) st in
  snd out = set_requests_total (requests_total (snd out)) st /\
  match body with
  | JBool _ | JInt _ | JFloat _ =>
      if truthy body then fst out = InternalServerError
      else exists config, fst out = Json 200 config
  | _ => True
  end.
Proof.
  intros Hb. cbv zeta.
  assert (E0 : st = set_requests_total (requests_total st) st)
    by (destruct st; reflexivity).
  split.
  - unfold update_config.
    set (data := if truthy body then body else JObj ∅).
    assert (Hd : forall m, data = JObj m -> m = ∅).
    { subst data. destruct (truthy body); [exact Hb |]. now intros m [= <-]. }
    clearbody data. rewrite snd_view.
    repeat match goal with
           | |- context [bind (if_present ?key data ?k) ?f st] =>
               destruct (bind_no_fields key data k f st Hd) as [-> | [e ->]];
               [cbv beta | exact E0]
           end.
    reflexivity.
  - unfold update_config, view.
    destruct body as [| b | n | q | s | l | m]; try exact I; simpl truthy.
    + destruct b; [reflexivity |].
      unfold if_present, py_contains, py_getitem. rewrite !lookup_empty.
      eexists. reflexivity.
    + destruct (negb (n =? 0)); [reflexivity |].
      unfold if_present, py_contains, py_getitem. rewrite !lookup_empty.
      eexists. reflexivity.
    + destruct (negb (Qeq_bool q 0)); [reflexivity |].
      unfold if_present, py_contains, py_getitem. rewrite !lookup_empty.
      eexists. reflexivity.
Qed.

Lemma update_config_without_fields_witness :
  config_view (snd (view (update_config (fun _ => None)
                            (JArr [JStr "workers"; JInt 7])) default_state))
  = config_view default_state.
Proof.
  destruct (update_config_without_fields (fun _ => None)
              (JArr [JStr "workers"; JInt 7]) default_state) as [E _].
  - intros m Hm. discriminate Hm.
  - cbv zeta in E. rewrite E. reflexivity.
Defined.

(** X15: The fields are handled in the order [pattern_mode], [base_load],
    [max_load], [cycle_duration], [workers], and a failure is not rolled
    back: when [base_load] is present and does not go through [int], the
    answer is a 500, [pattern_mode] has been stored if it was sent, and no
    numeric field is written, the valid ones sent along included. *)
Theorem update_config_fails_midway int_of_str
    (m : gmap string json) (b : json) (e : exn) (st : state) :
  m !! "base_load" = Some b ->
  py_int int_of_str b = Raise e ->
  let out := view (update_config int_of_str (JObj m)) st in
  fst out = InternalServerError /\
  PATTERN_MODE (snd out) = default (PATTERN_MODE st) (m !! "pattern_mode") /\
  BASE_LOAD (snd out) = BASE_LOAD st /\
  MAX_LOAD (snd out) = MAX_LOAD st /\
  CYCLE_DURATION (snd out) = CYCLE_DURATION st /\
  manual_workers (snd out) = manual_workers st /\
  requests_total (snd out) = requests_total st.
Proof.
  intros Hb He. cbv zeta.
  assert (E : update_config int_of_str (JObj m) st =
    (Raise e,
     match m !! "pattern_mode" with
     | Some v => set_log (log st ++ [PatternModeChanged v]) (set_PATTERN_MODE v st)
     | None => st
     end)).
  { unfold update_config. rewrite data_of_obj. unfold bind at 1.
    destruct (m !! "pattern_mode") as [v |] eqn:E0.
    - rewrite (if_present_Some _ _ _ _ _ E0).
      unfold bind at 1, modify at 1, bind at 1, logger at 1, modify at 1.
      cbv beta iota.
      unfold bind at 1. rewrite (if_present_Some _ _ _ _ _ Hb).
      unfold bind at 1, lift at 1. rewrite He. reflexivity.
    - rewrite (if_present_None _ _ _ _ E0). cbv beta iota.
      unfold bind at 1. rewrite (if_present_Some _ _ _ _ _ Hb).
      unfold bind at 1, lift at 1. rewrite He. reflexivity. }
  unfold view. rewrite E. destruct (m !! "pattern_mode"); simpl; repeat split.
Qed.

Lemma update_config_fails_midway_witness :
  let body := JObj {[ "pattern_mode" := JStr "spike"; "base_load" := JNull;
                      "workers" := JInt 7 ]} in
  let out := view (update_config (fun _ => None) body) default_state in
  PATTERN_MODE (snd out) = JStr "spike" /\ manual_workers (snd out) = 10.
Proof.
  cbv zeta.
  destruct (update_config_fails_midway (fun _ => None)
              {[ "pattern_mode" := JStr "spike"; "base_load" := JNull;
                 "workers" := JInt 7 ]} JNull TypeError default_state)
    as (_ & Hp & _ & _ & _ & Hw & _).
  - vm_compute. reflexivity.
  - reflexivity.
  - cbv zeta in Hp, Hw. split; [| exact Hw].
    rewrite Hp. vm_compute. reflexivity.
Defined.

Lemma counts_success_bind {A} k c0 (c : M A) (f : A -> M response) st :
  preserves requests_total c ->
  requests_total st = c0 ->
  (forall a st1, requests_total st1 = c0 -> counts_success k c0 (f a st1)) ->
  counts_success k c0 (bind c f st).
Proof.
  intros Hc H0 Hf. unfold bind. specialize (Hc st).
  destruct (c st) as [[a | e] st1]; simpl in Hc.
  - apply Hf. congruence.
  - simpl. congruence.
Qed.

Lemma if_present_keeps_counter key data k :
  (forall v, preserves requests_total (k v)) ->
  preserves requests_total (if_present key data k).
Proof.
  intros Hk. unfold if_present. repeat preserves_step. apply Hk.
Qed.

(** X16: [requests_total] counts the [/config] requests that were answered,
    not the ones that failed: a request that ends in a 500 leaves every
    child of the counter as it was, a successful one adds one to the child
    [(POST, /config, 200)] and touches no other. *)
Theorem update_config_counts_successes int_of_str (body : json) (st : state) :
  let out := view (update_config int_of_str body) st in
  match fst out with
  | Json status _ =>
      status = 200 /\
      requests_total (snd out)
      = counted_once ("POST", "/config", "200")%string (requests_total st)
  | InternalServerError => requests_total (snd out) = requests_total st
  end.
Proof.
  cbv zeta.
  assert (C : counts_success ("POST", "/config", "200")%string (requests_total st)
                (update_config int_of_str body st) /\
              forall status c st', update_config int_of_str body st
                                   = (Ok (Json status c), st') -> status = 200).
  { unfold update_config. set (data := if truthy body then body else JObj ∅).
    clearbody data. split.
    - repeat (apply counts_success_bind;
              [ apply if_present_keeps_counter; intros v; unfold logger;
                repeat preserves_step
              | reflexivity || assumption
              | intros [] ? ? ]).
      unfold_py. simpl. unfold counted_once. congruence.
    - intros status c st'.
      repeat (unfold bind at 1;
              match goal with
              | |- context [if_present ?key data ?k ?s] =>
                  destruct (if_present key data k s) as [[[] | ?] ?];
                  [| discriminate]
              end).
      unfold_py. simpl. intros [= <- _ _]. reflexivity. }
  destruct C as [C S]. unfold view.
  destruct (update_config int_of_str body st) as [[[status c |] | e] st'] eqn:E;
    simpl in *; try contradiction; try exact C.
  split; [exact (S status c st' eq_refl) | exact C].
Qed.

(** X17: [/config] does not check the pattern it is given: any JSON value is
    stored in [PATTERN_MODE], and if it is none of the four pattern names
    (a number, a list, a misspelt name) the controller from then on takes
    [BASE_LOAD] as its target, the cycle being nonzero. *)
Theorem update_config_unknown_pattern int_of_str
    (v : json) (t : Z) (r : Q) (st : state) :
  (forall s, In s valid_patterns -> v <> JStr s) ->
  CYCLE_DURATION st <> 0 ->
  let out := view (update_config int_of_str (JObj {[ "pattern_mode" := v ]})) st in
  (exists config, fst out = Json 200 config) /\
  PATTERN_MODE (snd out) = v /\
  calculate_target_workers (PATTERN_MODE (snd out)) t r (snd out)
  = (Ok (BASE_LOAD st), snd out).
Proof.
  intros Hv Hc. cbv zeta.
  assert (L0 : ({[ "pattern_mode" := v ]} : gmap string json) !! "pattern_mode" = Some v)
    by apply lookup_singleton_eq.
  assert (L : forall key, key <> "pattern_mode"%string ->
                ({[ "pattern_mode" := v ]} : gmap string json) !! key = None)
    by (intros key Hk; apply lookup_singleton_ne; congruence).
  assert (E : exists c,
    update_config int_of_str (JObj {[ "pattern_mode" := v ]}) st =
    (Ok (Json 200 c),
     set_requests_total
       (counted_once ("POST", "/config", "200")%string (requests_total st))
       (set_log (log st ++ [PatternModeChanged v]) (set_PATTERN_MODE v st)))).
  { unfold update_config. rewrite data_of_obj.
    unfold bind at 1. rewrite (if_present_Some _ _ _ _ _ L0).
    unfold bind at 1, modify at 1, bind at 1, logger at 1, modify at 1.
    cbv beta iota.
    do 4 (unfold bind at 1; rewrite if_present_None by (apply L; discriminate);
          cbv beta iota).
    eexists. reflexivity. }
  destruct E as [c E]. unfold view. rewrite E. simpl.
  split; [eexists; reflexivity |]. split; [reflexivity |].
  rewrite calculate_target_workers_fallback; [reflexivity | exact Hv | exact Hc].
Qed.

(** ** The loop reads the configuration and never writes it *)

Lemma manage_workers_iteration_config s st :
  config_view (snd (manage_workers_iteration s st)) = config_view st.
Proof.
  rewrite manage_workers_iteration_unfold.
  destruct (ENABLED st); [| reflexivity].
  destruct (calculate_target_workers_state (PATTERN_MODE st) (elapsed s) (rnd s) st)
    as [v Hv].
  destruct (calculate_target_workers _ _ _ st) as [[target | e] st1];
    simpl in Hv; subst st1; [| reflexivity].
  pose proof (reconcile_frame target (set_current_load_level v st)) as F.
  cbv zeta in F. destruct F as (F1 & F2 & F3 & F4 & _ & F6 & _).
  unfold config_view. simpl. rewrite F1, F2, F3, F4, F6. reflexivity.
Qed.

(** X12: A round of the manager loop, enabled or not, failing or not, leaves
    the five configuration globals as it found them. *)
Theorem manage_workers_iteration_keeps_config (s : sample) (st : state) :
  let st' := snd (manage_workers_iteration s st) in
  PATTERN_MODE st' = PATTERN_MODE st /\
  BASE_LOAD st' = BASE_LOAD st /\
  MAX_LOAD st' = MAX_LOAD st /\
  CYCLE_DURATION st' = CYCLE_DURATION st /\
  manual_workers st' = manual_workers st.
Proof.
  cbv zeta. pose proof (manage_workers_iteration_config s st) as E.
  unfold config_view in E. injection E as E1 E2 E3 E4 E5. repeat split; assumption.
Qed.

(** X13: As long as no [/config] request comes in, a pattern that is one of the
    four names stays one: [/pattern] stores only names it has checked and
    the loop stores none, so the fallback branch of the pattern function
    is out of reach. *)
Theorem run_keeps_known_pattern int_of_str (evs : list event) (st : state) :
  Forall no_config_request evs ->
  known_pattern st ->
  known_pattern (run int_of_str evs st).
Proof.
  revert st. induction evs as [| ev evs IH]; intros st Hn Hk; [exact Hk |].
  change (run int_of_str (ev :: evs) st)
    with (run int_of_str evs (step int_of_str st ev)).
  apply Forall_cons in Hn as [Hev Hn]. apply IH; [exact Hn |].
  destruct ev as [s | body | name]; simpl.
  - pose proof (manage_workers_iteration_config s st) as E.
    unfold config_view in E. injection E as E1 _ _ _ _.
    destruct Hk as (p & Hp & Hm). exists p. split; [exact Hp | congruence].
  - destruct Hev.
  - unfold set_pattern, view.
    destruct (bool_decide_reflect (name ∈ valid_patterns)) as [Hin | Hnin]; simpl.
    + exists name. split; [apply list_elem_of_In; exact Hin | reflexivity].
    + exact Hk.
Qed.

(** ** [compute_work] *)

Lemma work_unit_value : work_unit = 332833500.
Proof. vm_compute. reflexivity. Qed.

Lemma compute_work_loop_counts d t0 pre : forall t rest acc,
  Forall (fun x => (x - t0 < d)%Q) pre ->
  ~ (t - t0 < d)%Q ->
  compute_work_loop d t0 (pre ++ t :: rest) acc
  = Some (acc + Z.of_nat (length pre) * work_unit).
Proof.
  induction pre as [| x pre IH]; intros t rest acc Hpre Ht; simpl.
  - destruct (Qltb (t - t0) d) eqn:E.
    + apply Qltb_lt in E. contradiction.
    + f_equal. lia.
  - apply Forall_cons in Hpre as [Hx Hpre].
    apply Qltb_lt in Hx. rewrite Hx. rewrite IH by assumption.
    f_equal. lia.
Qed.

(** X18: [compute_work] goes round once for each reading of the clock that is
    still before the deadline and returns at the first one that is not;
    its result is the number of rounds times 332833500, the sum of the
    squares below 1000, and so zero when the first test already fails. *)
Theorem compute_work_counts (d t0 t : Q) (pre rest : list Q) :
  Forall (fun x => (x - t0 < d)%Q) pre ->
  ~ (t - t0 < d)%Q ->
  compute_work d (t0 :: pre ++ t :: rest)
  = Some (Z.of_nat (length pre) * 332833500).
Proof.
  intros Hpre Ht. unfold compute_work.
  rewrite compute_work_loop_counts by assumption.
  rewrite work_unit_value. reflexivity.
Qed.

Lemma compute_work_counts_witness :
  compute_work (1 # 10) [0; 1 # 25; 2 # 25; 3 # 25; 4 # 25]%Q
  = Some (2 * 332833500).
Proof.
  apply (compute_work_counts (1 # 10) 0 (3 # 25) [1 # 25; 2 # 25]%Q [4 # 25]%Q).
  - apply List.Forall_cons; [reflexivity |].
    apply List.Forall_cons; [reflexivity |].
    apply List.Forall_nil.
  - intros H. discriminate H.
Defined.

End Libm.

(** * The theorems at work *)

(** The closed examples take the reference sine for [math.sin]; it is
    within [[-1, 1]]. *)
Lemma sin_ref_range x : (-1 <= sin_ref x)%Q /\ (sin_ref x <= 1)%Q.
Proof.
  unfold sin_ref. destruct (Qle_bool (Qabs x) (2 ^ (-27))) eqn:T.
  - apply Qle_bool_iff in T. apply Qabs_Qle_condition in T.
    assert (H : (2 ^ (-27) <= 1)%Q) by (vm_compute; discriminate).
    split; lra.
  - cbv zeta.
    match goal with
    | |- context [Qle_bool ?v (-1)] =>
        destruct (Qle_bool v (-1)) eqn:A; [split; lra |];
        destruct (Qle_bool 1 v) eqn:B; [split; lra |];
        apply Qltb_ge in A || idtac
    end.
    match goal with
    | |- context [Qle_bool ?v (-1)] => idtac
    | |- (-1 <= ?v)%Q /\ _ =>
        assert (A' : ~ (v <= -1)%Q) by (intros C; apply Qle_bool_iff in C; congruence);
        assert (B' : ~ (1 <= v)%Q) by (intros C; apply Qle_bool_iff in C; congruence);
        apply Qnot_le_lt in A', B'; split; lra
    end.
Qed.

(** ** The [wave] pattern *)

Lemma wave_pattern_witness :
  calculate_target_workers sin_ref (JStr "wave") 75 0 default_state =
    (Ok 15, set_current_load_level 14 default_state) /\
  calculate_target_workers sin_ref (JStr "wave") 30 0 default_state =
    (Ok 50, set_current_load_level 100 default_state).
Proof.
  destruct (wave_pattern sin_ref sin_ref_range) as [G (_ & _ & S)].
  split.
  - destruct (G 75 0%Q default_state ltac:(discriminate)
                ltac:(vm_compute; repeat split; discriminate)) as (_ & _ & _ & E).
    rewrite E. vm_compute. reflexivity.
  - apply S. vm_compute. reflexivity.
Defined.

(** Against C1 as worded: in the default configuration, 75 seconds into
    the cycle, the load factor is a little over 0.146; the code returns
    the target 15 and stores the level 14, where rounding the same
    products to the nearest integer gives 16 and 15. *)
Lemma wave_not_rounded :
  let st := default_state in
  let factor := wave_factor (sin_ref (wave_angle st 75)) in
  (29 # 200 < factor)%Q /\ (factor < 3 # 20)%Q /\
  calculate_target_workers sin_ref (JStr "wave") 75 0 st =
    (Ok 15, set_current_load_level 14 st) /\
  BASE_LOAD st + round_rat (inject_Z (MAX_LOAD st - BASE_LOAD st) * factor) = 16 /\
  round_rat (factor * 100) = 15.
Proof. vm_compute. repeat split. Qed.



(** ** The [spike] pattern *)

Lemma spike_pattern_witness :
  calculate_target_workers sin_ref (JStr "spike") 60 0 default_state
  = (Ok 50, set_current_load_level 100 default_state).
Proof.
  refine (proj1 (proj2 (spike_pattern sin_ref 60 0 default_state _ _ _)) _).
  - discriminate.
  - vm_compute. discriminate.
  - vm_compute. discriminate.
  - right. split; [discriminate | reflexivity].
Defined.

(** Against C2 as worded: with [BASE_LOAD = 10] and [MAX_LOAD = 13], a
    quarter into the cycle (outside the window), the fifth is 0.6; the code
    returns 10 where rounding (to the nearest integer, under any rule for
    ties) gives 11. *)
Lemma spike_not_rounded :
  let st := set_MAX_LOAD 13 default_state in
  let p := (inject_Z (30 mod CYCLE_DURATION st) / inject_Z (CYCLE_DURATION st))%Q in
  ~ in_spike_window p /\
  fst (calculate_target_workers sin_ref (JStr "spike") 30 0 st) = Ok 10 /\
  BASE_LOAD st + round_rat (0.2 * inject_Z (MAX_LOAD st - BASE_LOAD st)) = 11 /\
  fst (calculate_target_workers sin_ref (JStr "spike") 30 0 st)
    <> Ok (BASE_LOAD st + round_rat (0.2 * inject_Z (MAX_LOAD st - BASE_LOAD st))).
Proof.
  cbv zeta. split; [| split; [| split]].
  - intros [H | [H _]]; revert H; vm_compute; [discriminate | tauto].
  - vm_compute. reflexivity.
  - vm_compute. reflexivity.
  - vm_compute. discriminate.
Qed.

(** Beyond the bounds of the theorem the binary64 results leave the
    exact ones.  A cycle of [10^19] seconds: one second before the tenth
    of the cycle the quotient rounds to the float that [0.1] is, and the
    test [position < 0.1] fails inside the window. *)
Lemma spike_window_long_cycle :
  let st := set_CYCLE_DURATION (10 ^ 19) default_state in
  let t := 10 ^ 18 - 1 in
  in_spike_window (cycle_position st t) /\
  calculate_target_workers sin_ref (JStr "spike") t 0 st =
    (Ok 18, set_current_load_level 20 st).
Proof.
  cbv zeta. split.
  - left. vm_compute. reflexivity.
  - vm_compute. reflexivity.
Qed.

(** Loads further apart than [2^52]: the product with the float that
    [0.2] is rounds up to the next integer. *)
Lemma spike_fifth_large :
  let st := set_MAX_LOAD 7653564585999239 (set_BASE_LOAD 0 default_state) in
  fst (calculate_target_workers sin_ref (JStr "spike") 30 0 st)
  = Ok (7653564585999239 ÷ 5 + 1).
Proof. vm_compute. reflexivity. Qed.

(** A load too large for a float: the level is stored, then the
    conversion raises, and the round of the loop logs the error. *)
Lemma spike_overflow :
  let st := set_MAX_LOAD (10 ^ 400) (initial_state "spike" 10 50 120 true) in
  calculate_target_workers sin_ref (PATTERN_MODE st) 30 0 st =
    (Raise OverflowError, set_current_load_level 20 st) /\
  snd (manage_workers_iteration sin_ref (mkSample 30 0 0 0) st) =
    set_log [ManagerError OverflowError] (set_current_load_level 20 st).
Proof. vm_compute. split; reflexivity. Qed.

(** ** The [manual] pattern, the fallback and a disabled controller *)

Lemma manual_pattern_witness :
  let st := initial_state "manual" 10 50 120 true in
  let st' := snd (view (update_config (fun _ => None) (JObj {[ "workers" := JInt 7 ]})) st) in
  calculate_target_workers sin_ref (PATTERN_MODE st') 1234 0 st' = (Ok 7, st').
Proof.
  exact (proj2 (proj2 (manual_pattern sin_ref) (fun _ => None) 1234 0%Q
                  (initial_state "manual" 10 50 120 true) eq_refl)).
Defined.

Lemma fallback_pattern_witness :
  calculate_target_workers sin_ref (JStr "steady") 30 0 default_state
  = (Ok 10, default_state).
Proof.
  apply (fallback_pattern sin_ref (JStr "steady") 30 0 default_state).
  - intros s Hs Heq. injection Heq as <-. simpl in Hs.
    repeat (destruct Hs as [Hs | Hs]; [discriminate Hs |]). exact Hs.
  - discriminate.
Defined.

(** Against C9 as worded: with [CYCLE_DURATION] zero an unknown pattern
    does not reach the fallback, the call raises. *)
Lemma fallback_raises_on_zero_cycle :
  let st := set_CYCLE_DURATION 0 default_state in
  (forall s, In s valid_patterns -> JStr "steady" <> JStr s) /\
  calculate_target_workers sin_ref (JStr "steady") 30 0 st = (Raise ZeroDivisionError, st) /\
  calculate_target_workers sin_ref (JStr "steady") 30 0 st <> (Ok (BASE_LOAD st), st).
Proof.
  cbv zeta. split; [| split].
  - intros s Hs Heq. injection Heq as <-. simpl in Hs.
    repeat (destruct Hs as [Hs | Hs]; [discriminate Hs |]). exact Hs.
  - reflexivity.
  - discriminate.
Qed.

Lemma disabled_iteration_witness :
  let st := initial_state "wave" 10 50 120 false in
  let s := mkSample 30 0 4096 (25 # 1) in
  workers (snd (manage_workers_iteration sin_ref s st)) = [] /\
  memory_usage_bytes (snd (manage_workers_iteration sin_ref s st)) = 4096.
Proof.
  pose proof (disabled_iteration sin_ref (mkSample 30 0 4096 (25 # 1))
                (initial_state "wave" 10 50 120 false) eq_refl) as [_ H].
  cbv zeta in *. destruct H as (Hw & _ & _ & Hm & _).
  split; [exact Hw | exact Hm].
Defined.

Lemma disabled_run_witness :
  workers
    (run sin_ref (fun _ => None)
       [Tick (mkSample 0 0 0 0); PostPattern "manual"; Tick (mkSample 5 0 0 0)]
       (initial_state "wave" 10 50 120 false)) = [].
Proof.
  pose proof (disabled_run sin_ref (fun _ => None)
    [Tick (mkSample 0 0 0 0); PostPattern "manual"; Tick (mkSample 5 0 0 0)]
    (initial_state "wave" 10 50 120 false) eq_refl) as H.
  apply (f_equal (fun v => snd (fst (fst (fst v))))) in H. exact H.
Defined.

(** ** The pattern function and the loop *)

Lemma calculate_target_workers_raises_witness :
  exists target st',
    calculate_target_workers sin_ref (JStr "wave") 30 (1 # 2) default_state
    = (Ok target, st').
Proof.
  apply (proj2 (proj2 (proj2 (calculate_target_workers_raises sin_ref sin_ref_range
                                (JStr "wave") 30 (1 # 2) default_state)))).
  - vm_compute. repeat split; discriminate.
  - split; [discriminate | reflexivity].
  - right. discriminate.
Defined.

Lemma calculate_target_workers_periodic_witness :
  calculate_target_workers sin_ref (JStr "spike") (7 + 3 * 120) 0 default_state
  = calculate_target_workers sin_ref (JStr "spike") 7 0 default_state.
Proof.
  apply (calculate_target_workers_periodic sin_ref (JStr "spike") 7 3 0 default_state).
  discriminate.
Defined.

Lemma pattern_target_in_range_witness :
  exists target level,
    calculate_target_workers sin_ref (JStr "random") 0 (1 # 3) default_state
      = (Ok target, set_current_load_level level default_state) /\
    10 <= target <= 50 /\ 0 <= level <= 100.
Proof.
  apply (pattern_target_in_range sin_ref sin_ref_range (JStr "random") 0 (1 # 3)
           default_state).
  - right. right. reflexivity.
  - discriminate.
  - discriminate.
  - vm_compute. repeat split; discriminate.
  - split; [discriminate | reflexivity].
Defined.

Lemma manage_workers_iteration_errors_witness :
  memory_usage_bytes
    (snd (manage_workers_iteration sin_ref (mkSample 30 (1 # 2) 4096 (25 # 1))
            default_state)) = 4096.
Proof.
  pose proof (manage_workers_iteration_errors sin_ref sin_ref_range
                (mkSample 30 (1 # 2) 4096 (25 # 1)) default_state) as H.
  cbv zeta in H. destruct H as (_ & _ & _ & _ & H).
  apply H.
  - vm_compute. repeat split; discriminate.
  - split; [discriminate | reflexivity].
  - intros (_ & _ & Hc). discriminate Hc.
Defined.

Lemma enabled_iteration_gauges_witness :
  let s := mkSample 0 0 4096 (50 # 1) in
  let st := initial_state "manual" 3 50 120 true in
  active_workers (snd (manage_workers_iteration sin_ref s st)) = 3.
Proof.
  cbv zeta.
  destruct (enabled_iteration_gauges sin_ref (mkSample 0 0 4096 (50 # 1))
              (initial_state "manual" 3 50 120 true)
              (initial_state "manual" 3 50 120 true) 3 eq_refl eq_refl)
    as (_ & Ha & Hg & _).
  rewrite Hg, Ha. reflexivity.
Defined.

Lemma run_gauges_in_range_witness :
  gauges_in_range
    (run sin_ref (fun _ => None)
       [Tick (mkSample 0 (1 # 2) 0 0); PostPattern "random";
        Tick (mkSample 5 (9 # 10) 0 0)]
       default_state).
Proof.
  apply (run_gauges_in_range sin_ref sin_ref_range).
  - apply List.Forall_cons; [split; [discriminate | reflexivity] |].
    apply List.Forall_cons; [exact I |].
    apply List.Forall_cons; [split; [discriminate | reflexivity] |].
    apply List.Forall_nil.
  - unfold gauges_in_range. simpl. lia.
Defined.

Lemma run_keeps_known_pattern_witness :
  known_pattern
    (run sin_ref (fun _ => None)
       [PostPattern "spike"; Tick (mkSample 0 0 0 0); PostPattern "burst"]
       default_state).
Proof.
  apply run_keeps_known_pattern.
  - apply List.Forall_cons; [exact I |].
    apply List.Forall_cons; [exact I |].
    apply List.Forall_cons; [exact I |].
    apply List.Forall_nil.
  - exists "wave"%string. split; [left; reflexivity | reflexivity].
Defined.

Lemma update_config_unknown_pattern_witness :
  let out := view (update_config (fun _ => None)
                     (JObj {[ "pattern_mode" := JInt 3 ]})) default_state in
  calculate_target_workers sin_ref (PATTERN_MODE (snd out)) 42 0 (snd out)
  = (Ok 10, snd out).
Proof.
  refine (proj2 (proj2 (update_config_unknown_pattern sin_ref (fun _ => None)
                          (JInt 3) 42 0 default_state _ _))).
  - intros s _. discriminate.
  - discriminate.
Defined.
